(** * Password-manager demo: crypto helpers and the users.json backend

    A shallow embedding of

    - [js/crypto-utils.js]: the Web Crypto helpers ([b64], [ub64],
      [pbkdf2Key], [pbkdf2Bits], [randomBytes], [aesGcmEncryptJSON],
      [aesGcmEncryptBytes], [aesGcmDecryptBytes], [deriveEncAndMac],
      [ecdsaVerify]);
    - [pm-server/server.js]: the Express handlers [POST /register],
      [POST /login] and [POST /updateVault] over the file [users.json],
      and the same handlers as the first server of
      [pm-server/copy of the Server/server - Copy.js] wraps them.

    The browser and Node primitives the code calls ([btoa], [atob],
    [crypto.subtle], [crypto.getRandomValues], [JSON.parse]) are not code of
    the repository.  [btoa] and [atob] are written out after the WHATWG
    definitions; the cryptographic primitives are the fields of a class,
    and so are the numbers of JSON and the engine's limit on the arguments
    of a call. *)

From Stdlib Require Import List NArith ZArith Lia Bool String Ascii.
From Stdlib Require Import DecimalString.
From Stdlib.Strings Require Import Byte.
Import ListNotations.

Set Warnings "-register-all".

Ltac Zify.zify_post_hook ::= Z.to_euclidean_division_equations.

(* ===================================================================== *)
(** * Part I: definitions                                                 *)
(* ===================================================================== *)

(** ** JavaScript values shared by both programs *)

(** A [Uint8Array]. *)
Definition bytes := list byte.

(** A JavaScript string used as a "binary string": its UTF-16 code units. *)
Definition jsstring := list N.

(** The exceptions the modelled code can raise, by their [name]. *)
Inductive exn : Type :=
  | ReferenceError (ident : string)
  | TypeError
  | SyntaxError
  | InvalidCharacterError
  | InvalidAccessError
  | OperationError
  | DataError
  | QuotaExceededError
  | RangeError.

(** The settlement of a promise (or the completion of a synchronous call):
    a value, or a thrown exception. *)
Inductive outcome (A : Type) : Type :=
  | Fulfilled (a : A)
  | Rejected (e : exn).

Arguments Fulfilled {A} a.
Arguments Rejected {A} e.

Definition bind {A B} (m : outcome A) (k : A -> outcome B) : outcome B :=
  match m with
  | Fulfilled a => k a
  | Rejected e => Rejected e
  end.

Declare Scope js_scope.
Delimit Scope js_scope with js.
Notation "'let*' x ':=' m 'in' k" := (bind m (fun x => k))
  (at level 10, x name, m at level 100, k at level 200) : js_scope.
Notation "'await' m ';;' k" := (bind m (fun _ => k))
  (at level 10, m at level 100, k at level 200) : js_scope.

Definition is_rejected {A} (m : outcome A) : bool :=
  match m with Fulfilled _ => false | Rejected _ => true end.

(** ** [btoa] and [atob]

    [btoa] is the forgiving-base64 encoding of the WHATWG Infra standard
    applied to a string of code units below 256; [atob] is forgiving-base64
    decoding.  Both throw [InvalidCharacterError] on failure. *)

Module Base64.

Local Open Scope N_scope.

(** The padding character [=]. *)
Definition pad : N := 61.

(** The i-th character of
    [ABCDEFGHIJKLMNOPQRSTUVWXYZabcdefghijklmnopqrstuvwxyz0123456789+/]. *)
Definition sextet_char (n : N) : N :=
  if n <? 26 then 65 + n
  else if n <? 52 then 97 + (n - 26)
  else if n <? 62 then 48 + (n - 52)
  else if n =? 62 then 43
  else 47.

(** The position of a character in the alphabet, if it has one. *)
Definition char_sextet (c : N) : option N :=
  if (65 <=? c) && (c <=? 90) then Some (c - 65)
  else if (97 <=? c) && (c <=? 122) then Some (c - 71)
  else if (48 <=? c) && (c <=? 57) then Some (c + 4)
  else if c =? 43 then Some 62
  else if c =? 47 then Some 63
  else None.

(** Three octets become four characters; one or two trailing octets are
    completed with zero bits and padded with [=]. *)
Fixpoint encode (l : list N) : list N :=
  match l with
  | [] => []
  | [a] =>
      [sextet_char (a / 4); sextet_char ((a mod 4) * 16); pad; pad]
  | [a; b] =>
      [sextet_char (a / 4); sextet_char ((a mod 4) * 16 + b / 16);
       sextet_char ((b mod 16) * 4); pad]
  | a :: b :: c :: r =>
      sextet_char (a / 4)
        :: sextet_char ((a mod 4) * 16 + b / 16)
        :: sextet_char ((b mod 16) * 4 + c / 64)
        :: sextet_char (c mod 64)
        :: encode r
  end.

(** [btoa(s)]: throws when [s] has a code unit above U+00FF. *)
Definition btoa (s : jsstring) : outcome jsstring :=
  if forallb (fun c => c <=? 255) s
  then Fulfilled (encode s)
  else Rejected InvalidCharacterError.

(** TAB, LF, FF, CR and SPACE. *)
Definition is_ascii_whitespace (c : N) : bool :=
  (c =? 9) || (c =? 10) || (c =? 12) || (c =? 13) || (c =? 32).

(** Remove one or two [=] from the end of the data. *)
Fixpoint strip_trailing_pad (d : list N) : list N :=
  match d with
  | [] => []
  | [c] => if c =? pad then [] else [c]
  | [c1; c2] =>
      if c2 =? pad then (if c1 =? pad then [] else [c1]) else [c1; c2]
  | c :: r => c :: strip_trailing_pad r
  end.

(** Padding is only removed from data whose length is a multiple of 4. *)
Definition strip_padding (d : list N) : list N :=
  if (Nat.modulo (List.length d) 4 =? 0)%nat then strip_trailing_pad d
  else d.

(** Every character must be in the alphabet. *)
Fixpoint sextets (d : list N) : option (list N) :=
  match d with
  | [] => Some []
  | c :: r =>
      match char_sextet c, sextets r with
      | Some n, Some ns => Some (n :: ns)
      | _, _ => None
      end
  end.

(** Four sextets give three octets.  Two left-over sextets give one octet
    (their last 4 bits are discarded) and three give two octets (the last
    2 bits are discarded); a single left-over sextet is the failure
    "length divides by 4 leaving a remainder of 1". *)
Fixpoint decode_groups (l : list N) : option (list N) :=
  match l with
  | [] => Some []
  | [_] => None
  | [a; b] => Some [a * 4 + b / 16]
  | [a; b; c] => Some [a * 4 + b / 16; (b mod 16) * 16 + c / 4]
  | a :: b :: c :: d :: r =>
      match decode_groups r with
      | Some o =>
          Some (a * 4 + b / 16
                  :: (b mod 16) * 16 + c / 4
                  :: (c mod 4) * 64 + d
                  :: o)
      | None => None
      end
  end.

Definition forgiving_decode (data : list N) : option (list N) :=
  let d := strip_padding
             (filter (fun c => negb (is_ascii_whitespace c)) data) in
  match sextets d with
  | Some ns => decode_groups ns
  | None => None
  end.

(** [atob(s)]. *)
Definition atob (s : jsstring) : outcome jsstring :=
  match forgiving_decode s with
  | Some o => Fulfilled o
  | None => Rejected InvalidCharacterError
  end.

End Base64.

(** ** js/crypto-utils.js: byte utilities *)

(** The engine under the code.  A call takes a bounded number of
    arguments (they are pushed on the stack); the bound is the engine's and
    the standard gives none. *)
Class Engine : Type := {
  max_arguments : N
}.

(** The code units of the string whose characters are the bytes of [u8]. *)
Definition char_codes (u8 : bytes) : jsstring :=
  map Byte.to_N u8.

(** [String.fromCharCode(...u8)]: the spread passes every element of [u8]
    as an argument of its own, and a call with more arguments than the
    engine takes throws a [RangeError]; otherwise the string has one code
    unit per element. *)
Definition String_fromCharCode {E : Engine} (u8 : bytes)
  : outcome jsstring :=
  if (max_arguments <? N.of_nat (List.length u8))%N
  then Rejected RangeError
  else Fulfilled (char_codes u8).

(** The conversion a [Uint8Array] applies to each number it is built from
    (ToUint8: modulo 256). *)
Definition ToUint8 (n : N) : byte :=
  match Byte.of_N (n mod 256)%N with
  | Some b => b
  | None => x00
  end.

(** [new Uint8Array(s.split('').map(c => c.charCodeAt(0)))]. *)
Definition Uint8Array_of_charCodes (s : jsstring) : bytes :=
  map ToUint8 s.

(** [export const b64 = u8 => btoa(String.fromCharCode(...u8));] *)
Definition b64 {E : Engine} (u8 : bytes) : outcome jsstring :=
  (let* s := String_fromCharCode u8 in
   Base64.btoa s)%js.

(** [export const ub64 = s =>
      new Uint8Array(atob(s).split('').map(c=>c.charCodeAt(0)));] *)
Definition ub64 (s : jsstring) : outcome bytes :=
  (let* t := Base64.atob s in
   Fulfilled (Uint8Array_of_charCodes t))%js.

(** ** JSON values

    A JSON number is an IEEE double as [JSON.parse] returns it: a literal
    too large for a double is read as an infinity, and [-0] as the negative
    zero.  Of a number the code observes whether it is zero (in [!x]), its
    decimal text (when it is used as a property key) and what
    [JSON.stringify] writes for it, so the type of numbers is left to the
    platform. *)

Class JsNumber : Type := {
  number : Type;
  number_is_zero : number -> bool;
  number_to_string : number -> string;
  (** The number [JSON.parse] reads back from what [JSON.stringify] wrote
      for [n]: none for an infinity, which is written as [null]; the
      positive zero for the negative zero, which is written as [0]; [n]
      itself otherwise. *)
  number_written : number -> option number;
  (** What has been written and read back is written as it is. *)
  number_written_again :
    forall n n', number_written n = Some n' -> number_written n' = Some n'
}.

Section Json.

Context {JN : JsNumber}.

(** What [JSON.parse] returns.  An object is the association list of its
    own properties; the order of the list is the order of writing, not
    the order of enumeration, and no definition below depends on it. *)
Inductive json : Type :=
  | JNull
  | JBool (b : bool)
  | JNum (n : number)
  | JStr (s : string)
  | JArr (elements : list json)
  | JObj (properties : list (string * json)).

Definition object := list (string * json).

(** ToBoolean, as applied by [!x] and [if (x)]. *)
Definition truthy (v : json) : bool :=
  match v with
  | JNull => false
  | JBool b => b
  | JNum n => negb (number_is_zero n)
  | JStr s => negb (String.eqb s "")
  | JArr _ => true
  | JObj _ => true
  end.

(** The own property [k] of an object. *)
Fixpoint get_own (k : string) (o : list (string * json)) : option json :=
  match o with
  | [] => None
  | (k', v) :: r => if String.eqb k k' then Some v else get_own k r
  end.

(** ToString, as applied to a value used as a property key.  An array is
    its elements joined by commas, [null] elements giving the empty
    string.  An object is ["[object Object]"], by the [toString] it
    inherits; an own property [toString] hides that method and, a JSON
    value not being callable, leaves the object without a primitive
    value: a [TypeError]. *)
Fixpoint to_string (v : json) : outcome string :=
  match v with
  | JNull => Fulfilled "null"%string
  | JBool true => Fulfilled "true"%string
  | JBool false => Fulfilled "false"%string
  | JNum n => Fulfilled (number_to_string n)
  | JStr s => Fulfilled s
  | JArr l =>
      (let* parts :=
         (fix join (l : list json) : outcome (list string) :=
            match l with
            | [] => Fulfilled []
            | e :: r =>
                let* s := match e with
                          | JNull => Fulfilled EmptyString
                          | _ => to_string e
                          end in
                let* ss := join r in
                Fulfilled (s :: ss)
            end) l in
       Fulfilled (String.concat "," parts))%js
  | JObj properties =>
      match get_own "toString" properties with
      | Some _ => Rejected TypeError
      | None => Fulfilled "[object Object]"%string
      end
  end.

(** [o[k] = v] on an object that keeps [k] as an own data property: an
    existing property is overwritten in place, a new one is added after
    the others. *)
Fixpoint set_own (k : string) (v : json) (o : object) : object :=
  match o with
  | [] => [(k, v)]
  | (k', v') :: r =>
      if String.eqb k k' then (k, v) :: r else (k', v') :: set_own k v r
  end.

(** [JSON.parse(JSON.stringify(v))]: the value a reader of the text gets.
    A number that is not finite is written as [null], at any depth; every
    other value is written so that it is read back as it was (but for the
    negative zero). *)
Fixpoint json_written (v : json) : json :=
  match v with
  | JNum n =>
      match number_written n with
      | Some n' => JNum n'
      | None => JNull
      end
  | JArr elements => JArr (map json_written elements)
  | JObj properties =>
      JObj (map (fun '(k, x) => (k, json_written x)) properties)
  | JNull | JBool _ | JStr _ => v
  end.

(** The properties of an object as they are written. *)
Definition written_properties (properties : object) : object :=
  map (fun '(k, x) => (k, json_written x)) properties.

End Json.

(** ** The platform under crypto-utils.js *)

Inductive algorithm_name : Type := PBKDF2 | AES_GCM | HMAC | ECDSA.

Inductive key_usage : Type :=
  | usage_encrypt | usage_decrypt | usage_sign | usage_verify
  | usage_deriveKey | usage_deriveBits | usage_wrapKey | usage_unwrapKey.

Inductive key_type : Type := type_secret | type_public | type_private.

(** A [CryptoKey]: its [type], [algorithm.name], [extractable] and [usages]
    attributes and the key material behind its handle. *)
Record CryptoKey : Type := {
  key_kind : key_type;
  key_algorithm : algorithm_name;
  key_extractable : bool;
  key_usages : list key_usage;
  key_data : bytes
}.

(** The primitives behind [crypto.subtle], [TextDecoder], [JSON.parse] and
    the global object.  Every hash in the source is SHA-256 and every curve
    P-256, so they are fixed here. *)
Class Platform {JN : JsNumber} : Type := {
  (** PBKDF2 with HMAC-SHA-256: password, salt, iteration count and output
      length in bits. *)
  PBKDF2_HMAC_SHA256 : bytes -> bytes -> N -> N -> bytes;
  (** AES-GCM with a 128-bit tag: key, iv, plaintext; the result is the
      ciphertext followed by the tag. *)
  AES_GCM_encrypt : bytes -> bytes -> bytes -> bytes;
  (** AES-GCM decryption: key, iv, ciphertext with tag; [None] when the tag
      does not verify. *)
  AES_GCM_decrypt : bytes -> bytes -> bytes -> option bytes;
  (** ECDSA over P-256 with SHA-256: public key, signature, data. *)
  ECDSA_P256_SHA256_verify : bytes -> bytes -> bytes -> bool;
  (** [TextDecoder.prototype.decode]. *)
  TextDecoder_decode : bytes -> string;
  (** [JSON.parse]; [None] is its [SyntaxError]. *)
  JSON_parse : string -> option json;
  (** The property of the global object named by an identifier, as the
      string [atob] would convert it to; [None] when there is none. *)
  global_binding : string -> option jsstring
}.

(** The generator behind [crypto.getRandomValues] in one run of the
    program: the bytes it hands out in that run, in the order of the
    calls, and how many have been taken.  The code sees only the bytes a
    call returns, and nothing is assumed about them: a stream may repeat
    itself. *)
Record random_source : Type := {
  rs_stream : nat -> byte;
  rs_taken : nat
}.

(** [n] bytes from the source. *)
Definition draw (n : nat) (rs : random_source) : bytes :=
  map (rs_stream rs) (seq (rs_taken rs) n).

Definition advance (n : nat) (rs : random_source) : random_source :=
  {| rs_stream := rs_stream rs; rs_taken := rs_taken rs + n |}.

Definition usage_eqb (a b : key_usage) : bool :=
  match a, b with
  | usage_encrypt, usage_encrypt | usage_decrypt, usage_decrypt
  | usage_sign, usage_sign | usage_verify, usage_verify
  | usage_deriveKey, usage_deriveKey | usage_deriveBits, usage_deriveBits
  | usage_wrapKey, usage_wrapKey | usage_unwrapKey, usage_unwrapKey => true
  | _, _ => false
  end.

Definition algorithm_eqb (a b : algorithm_name) : bool :=
  match a, b with
  | PBKDF2, PBKDF2 | AES_GCM, AES_GCM | HMAC, HMAC | ECDSA, ECDSA => true
  | _, _ => false
  end.

Definition has_usage (u : key_usage) (k : CryptoKey) : bool :=
  existsb (usage_eqb u) (key_usages k).

Definition usages_within (us allowed : list key_usage) : bool :=
  forallb (fun u => existsb (usage_eqb u) allowed) us.

Definition is_empty {A} (l : list A) : bool :=
  match l with [] => true | _ => false end.

(** ** [crypto.subtle] and [crypto.getRandomValues]

    The checks each method makes before it reaches the primitive, after the
    Web Cryptography API: the key's algorithm and usages
    ([InvalidAccessError]), the requested usages ([SyntaxError]) and the
    parameters ([OperationError], [DataError]). *)

Section WebCrypto.

Context {JN : JsNumber} {P : Platform}.

Local Open Scope N_scope.

(** The [{ name:'PBKDF2', salt, iterations, hash:'SHA-256' }] argument,
    for a whole number of iterations. *)
Record Pbkdf2Params : Type := {
  pbkdf2_salt : bytes;
  pbkdf2_iterations : N
}.

(** The conversion of the argument to the dictionary [Pbkdf2Params], the
    first step of [deriveKey] and [deriveBits]: [iterations] is an
    [[EnforceRange] unsigned long], so 2^32 and more is a [TypeError]. *)
Definition normalize_Pbkdf2Params (params : Pbkdf2Params)
  : outcome Pbkdf2Params :=
  if 2 ^ 32 <=? pbkdf2_iterations params then Rejected TypeError
  else Fulfilled params.

(** The [derivedKeyType] argument of [deriveKey]:
    [{ name:'AES-GCM', length }] or
    [{ name:'HMAC', hash:'SHA-256', length }]. *)
Inductive derived_key_type : Type :=
  | AesGcmKey (length : N)
  | HmacKey (length : N).

(** [importKey('raw', data, 'PBKDF2', extractable, usages)]. *)
Definition subtle_importKey_PBKDF2
    (data : bytes) (extractable : bool) (usages : list key_usage)
  : outcome CryptoKey :=
  if negb (usages_within usages [usage_deriveKey; usage_deriveBits])
  then Rejected SyntaxError
  else if extractable then Rejected SyntaxError
  else if is_empty usages then Rejected SyntaxError
  else Fulfilled {| key_kind := type_secret;
                    key_algorithm := PBKDF2;
                    key_extractable := false;
                    key_usages := usages;
                    key_data := data |}.

(** The "derive bits" operation of PBKDF2, on parameters that have passed
    the conversion above. *)
Definition pbkdf2_derive_bits
    (params : Pbkdf2Params) (baseKey : CryptoKey) (length : N)
  : outcome bytes :=
  if negb (length mod 8 =? 0) then Rejected OperationError
  else if pbkdf2_iterations params =? 0 then Rejected OperationError
  else Fulfilled (PBKDF2_HMAC_SHA256 (key_data baseKey)
                    (pbkdf2_salt params) (pbkdf2_iterations params)
                    length).

(** [deriveBits(params, baseKey, length)]. *)
Definition subtle_deriveBits
    (params : Pbkdf2Params) (baseKey : CryptoKey) (length : N)
  : outcome bytes :=
  (let* params := normalize_Pbkdf2Params params in
   if negb (algorithm_eqb (key_algorithm baseKey) PBKDF2)
   then Rejected InvalidAccessError
   else if negb (has_usage usage_deriveBits baseKey)
   then Rejected InvalidAccessError
   else pbkdf2_derive_bits params baseKey length)%js.

(** The "get key length" operation of the derived key's algorithm. *)
Definition get_key_length (t : derived_key_type) : outcome N :=
  match t with
  | AesGcmKey len =>
      if (len =? 128) || (len =? 192) || (len =? 256)
      then Fulfilled len else Rejected OperationError
  | HmacKey len =>
      if len =? 0 then Rejected TypeError else Fulfilled len
  end.

(** The import of the derived bits as a raw key of the derived type. *)
Definition import_derived
    (t : derived_key_type) (secret : bytes) (extractable : bool)
    (usages : list key_usage) : outcome CryptoKey :=
  match t with
  | AesGcmKey _ =>
      if negb (usages_within usages
                 [usage_encrypt; usage_decrypt;
                  usage_wrapKey; usage_unwrapKey])
      then Rejected SyntaxError
      else if is_empty usages then Rejected SyntaxError
      else Fulfilled {| key_kind := type_secret;
                        key_algorithm := AES_GCM;
                        key_extractable := extractable;
                        key_usages := usages;
                        key_data := secret |}
  | HmacKey _ =>
      if negb (usages_within usages [usage_sign; usage_verify])
      then Rejected SyntaxError
      else if is_empty usages then Rejected SyntaxError
      else Fulfilled {| key_kind := type_secret;
                        key_algorithm := HMAC;
                        key_extractable := extractable;
                        key_usages := usages;
                        key_data := secret |}
  end.

(** [deriveKey(params, baseKey, derivedKeyType, extractable, usages)]:
    the bits of the derived key's length are derived and imported. *)
Definition subtle_deriveKey
    (params : Pbkdf2Params) (baseKey : CryptoKey)
    (t : derived_key_type) (extractable : bool)
    (usages : list key_usage) : outcome CryptoKey :=
  (let* params := normalize_Pbkdf2Params params in
   if negb (algorithm_eqb (key_algorithm baseKey) PBKDF2)
   then Rejected InvalidAccessError
   else if negb (has_usage usage_deriveKey baseKey)
   then Rejected InvalidAccessError
   else
     let* length := get_key_length t in
     let* secret := pbkdf2_derive_bits params baseKey length in
     import_derived t secret extractable usages)%js.

(** [encrypt({name:'AES-GCM', iv}, key, data)]. *)
Definition subtle_encrypt_AES_GCM
    (iv : bytes) (key : CryptoKey) (data : bytes) : outcome bytes :=
  if negb (algorithm_eqb (key_algorithm key) AES_GCM)
  then Rejected InvalidAccessError
  else if negb (has_usage usage_encrypt key)
  then Rejected InvalidAccessError
  else Fulfilled (AES_GCM_encrypt (key_data key) iv data).

(** [decrypt({name:'AES-GCM', iv}, key, data)]: data shorter than the tag
    and data whose tag does not verify are both an [OperationError]. *)
Definition subtle_decrypt_AES_GCM
    (iv : bytes) (key : CryptoKey) (data : bytes) : outcome bytes :=
  if negb (algorithm_eqb (key_algorithm key) AES_GCM)
  then Rejected InvalidAccessError
  else if negb (has_usage usage_decrypt key)
  then Rejected InvalidAccessError
  else if (List.length data <? 16)%nat then Rejected OperationError
  else match AES_GCM_decrypt (key_data key) iv data with
       | Some plaintext => Fulfilled plaintext
       | None => Rejected OperationError
       end.

(** [verify({name:'ECDSA', hash:'SHA-256'}, key, signature, data)]. *)
Definition subtle_verify_ECDSA
    (key : CryptoKey) (signature data : bytes) : outcome bool :=
  if negb (algorithm_eqb (key_algorithm key) ECDSA)
  then Rejected InvalidAccessError
  else if negb (has_usage usage_verify key)
  then Rejected InvalidAccessError
  else match key_kind key with
       | type_public =>
           Fulfilled (ECDSA_P256_SHA256_verify (key_data key)
                        signature data)
       | _ => Rejected InvalidAccessError
       end.

(** [crypto.getRandomValues(u)] on an array of [n] bytes: more than 65536
    bytes is a [QuotaExceededError]. *)
Definition getRandomValues (n : N) (rs : random_source)
  : outcome bytes * random_source :=
  if 65536 <? n then (Rejected QuotaExceededError, rs)
  else (Fulfilled (draw (N.to_nat n) rs), advance (N.to_nat n) rs).

(** ** js/crypto-utils.js *)

(** [enc.encode(s)] for [enc = new TextEncoder()]: a text is kept as its
    UTF-8 encoding, so encoding it gives its bytes. *)
Definition enc_encode (s : string) : bytes := list_byte_of_string s.

(** [dec.decode(b)] for [dec = new TextDecoder()]. *)
Definition dec_decode (b : bytes) : string := TextDecoder_decode b.

(** The value of a parameter that defaults to [d]. *)
Definition default {A} (d : A) (arg : option A) : A :=
  match arg with Some a => a | None => d end.

(** [export async function pbkdf2Key(password, salt, iterations = 150000,
      usage=['encrypt','decrypt'])] *)
Definition pbkdf2Key
    (password : string) (salt : bytes) (iterations : option N)
    (usage : option (list key_usage)) : outcome CryptoKey :=
  let iterations := default 150000 iterations in
  let usage := default [usage_encrypt; usage_decrypt] usage in
  (let* material :=
     subtle_importKey_PBKDF2 (enc_encode password) false
       [usage_deriveKey] in
   subtle_deriveKey
     {| pbkdf2_salt := salt; pbkdf2_iterations := iterations |}
     material (AesGcmKey 256) false usage)%js.

(** [export async function pbkdf2Bits(password, salt, iterations=150000)] *)
Definition pbkdf2Bits
    (password : string) (salt : bytes) (iterations : option N)
  : outcome bytes :=
  let iterations := default 150000 iterations in
  (let* material :=
     subtle_importKey_PBKDF2 (enc_encode password) false
       [usage_deriveBits] in
   let* bits :=
     subtle_deriveBits
       {| pbkdf2_salt := salt; pbkdf2_iterations := iterations |}
       material 256 in
   Fulfilled bits)%js.

(** [export function randomBytes(n){ const u = new Uint8Array(n);
      crypto.getRandomValues(u); return u; }] *)
Definition randomBytes (n : N) (rs : random_source)
  : outcome bytes * random_source :=
  getRandomValues n rs.

(** An identifier that neither the function nor the module declares is
    looked up on the global object; when it is not there either, reading
    it is a [ReferenceError]. *)
Definition global_identifier (x : string) : outcome jsstring :=
  match global_binding x with
  | Some v => Fulfilled v
  | None => Rejected (ReferenceError x)
  end.

(** [[
export async function aesGcmEncryptJSON(obj, key){
    const ivB = ub64(iv); const ctB = ub64(ciphertext);
    const pt = await crypto.subtle.decrypt({name:'AES-GCM', iv: ivB}, key, ctB);
    return JSON.parse(dec.decode(pt));
}
]]
    [iv] and [ciphertext] are not parameters of the function and the
    module declares neither. *)
Definition aesGcmEncryptJSON (obj : json) (key : CryptoKey)
  : outcome json :=
  (let* iv := global_identifier "iv" in
   let* ivB := ub64 iv in
   let* ciphertext := global_identifier "ciphertext" in
   let* ctB := ub64 ciphertext in
   let* pt := subtle_decrypt_AES_GCM ivB key ctB in
   match JSON_parse (dec_decode pt) with
   | Some v => Fulfilled v
   | None => Rejected SyntaxError
   end)%js.

(** The object [{ iv, ciphertext: ct }]. *)
Record EncryptedBytes : Type := {
  iv : bytes;
  ciphertext : bytes
}.

(** [[
export async function aesGcmEncryptBytes(bytes, key){
    const iv = randomBytes(12);
    const ct = new Uint8Array(await crypto.subtle.encrypt({name:'AES-GCM', iv}, key, bytes));
    return { iv, ciphertext: ct };
}
]] *)
Definition aesGcmEncryptBytes
    (data : bytes) (key : CryptoKey) (rs : random_source)
  : outcome EncryptedBytes * random_source :=
  match randomBytes 12 rs with
  | (Rejected e, rs') => (Rejected e, rs')
  | (Fulfilled iv, rs') =>
      ((let* ct := subtle_encrypt_AES_GCM iv key data in
        Fulfilled {| iv := iv; ciphertext := ct |})%js, rs')
  end.

(** [[
export async function aesGcmDecryptBytes(iv, ct, key){
    const pt = await crypto.subtle.decrypt({name:'AES-GCM', iv}, key, ct);
    return new Uint8Array(pt);
}
]] *)
Definition aesGcmDecryptBytes (iv ct : bytes) (key : CryptoKey)
  : outcome bytes :=
  (let* pt := subtle_decrypt_AES_GCM iv key ct in
   Fulfilled pt)%js.

(** The object [{ aesKey, macKey }]. *)
Record EncAndMac : Type := {
  aesKey : CryptoKey;
  macKey : CryptoKey
}.

(** [[
export async function deriveEncAndMac(password, salt, iterations=150000){
    const material = await crypto.subtle.importKey('raw', enc.encode(password), 'PBKDF2', false, ['deriveKey']);
    const params = { name:'PBKDF2', salt, iterations, hash:'SHA-256' };
    const aesKey = await crypto.subtle.deriveKey(params, material, {name:'AES-GCM', length:256}, false, ['encrypt','decrypt']);
    const macKey = await crypto.subtle.deriveKey(params, material, {name:'HMAC', hash:'SHA-256', length:256}, false, ['sign','verify']);
    return { aesKey, macKey };
}
]] *)
Definition deriveEncAndMac
    (password : string) (salt : bytes) (iterations : option N)
  : outcome EncAndMac :=
  let iterations := default 150000 iterations in
  (let* material :=
     subtle_importKey_PBKDF2 (enc_encode password) false
       [usage_deriveKey] in
   let params :=
     {| pbkdf2_salt := salt; pbkdf2_iterations := iterations |} in
   let* aesKey :=
     subtle_deriveKey params material (AesGcmKey 256) false
       [usage_encrypt; usage_decrypt] in
   let* macKey :=
     subtle_deriveKey params material (HmacKey 256) false
       [usage_sign; usage_verify] in
   Fulfilled {| aesKey := aesKey; macKey := macKey |})%js.

(** [[
export async function ecdsaVerify(publicKey, dataBytes, signature){
    return crypto.subtle.verify({ name:'ECDSA', hash:'SHA-256' }, publicKey, signature, dataBytes);
}
]] *)
Definition ecdsaVerify (publicKey : CryptoKey) (dataBytes signature : bytes)
  : outcome bool :=
  subtle_verify_ECDSA publicKey signature dataBytes.

End WebCrypto.

(** ** pm-server/server.js

    The handlers read and write one file, [./users.json], which [initDB]
    creates as [{}] and which only [saveUsers] writes afterwards: its
    content is an object keyed by username.  [loadUsers] parses it into a
    fresh ordinary object on every request, and so does [express.json()]
    for the request body (an array body has none of the properties the
    handlers read and behaves as [{}]).  Ordinary objects inherit from
    [Object.prototype], which lives as long as the server process and which
    the assignment in [/updateVault] can reach.

    What reaches the file or the client goes through [JSON.stringify]: a
    value that came with a request is written as [json_written] gives it.
    The values [loadUsers] read from the file are written back as they
    were read: the file holds what [JSON.stringify] wrote, and that is
    written again as it is ([file_as_written] below is kept by every
    request). *)

Section Server.

Context {JN : JsNumber}.

(** The object that is [Object.prototype.vault], which outlives a
    request: a JSON value, or an object whose property [vault] has been
    assigned the object itself (the other properties are [properties],
    where the entry for [vault] only keeps its place). *)
Inductive shared_object : Type :=
  | Acyclic (v : json)
  | Cyclic (properties : object).

(** The state a request can observe or change. *)
Record process : Type := {
  (** the content of [./users.json] *)
  users_json : object;
  (** the property [vault] of [Object.prototype], once it has one *)
  prototype_vault : option shared_object
}.

(** The methods every ordinary object inherits from [Object.prototype]. *)
Definition Object_prototype_methods : list string :=
  ["constructor"; "__defineGetter__"; "__defineSetter__";
   "hasOwnProperty"; "__lookupGetter__"; "__lookupSetter__";
   "isPrototypeOf"; "propertyIsEnumerable"; "toString"; "valueOf";
   "toLocaleString"]%string.

(** What [o[k]] evaluates to on an ordinary object [o]. *)
Inductive property : Type :=
  | OwnValue (v : json)              (* an own property of [o] *)
  | InheritedVault (s : shared_object) (* [Object.prototype.vault] *)
  | ObjectPrototype                  (* [o.__proto__] *)
  | PrototypeMethod (name : string)  (* a function of [Object.prototype] *)
  | Undefined.

Definition get_property (st : process) (o : object) (k : string)
  : property :=
  match get_own k o with
  | Some v => OwnValue v
  | None =>
      if String.eqb k "__proto__" then ObjectPrototype
      else if existsb (String.eqb k) Object_prototype_methods
      then PrototypeMethod k
      else if String.eqb k "vault" then
        match prototype_vault st with
        | Some s => InheritedVault s
        | None => Undefined
        end
      else Undefined
  end.

Definition shared_truthy (s : shared_object) : bool :=
  match s with
  | Acyclic v => truthy v
  | Cyclic _ => true
  end.

(** ToBoolean of a property value: objects and functions are true. *)
Definition property_truthy (p : property) : bool :=
  match p with
  | OwnValue v => truthy v
  | InheritedVault s => shared_truthy s
  | ObjectPrototype | PrototypeMethod _ => true
  | Undefined => false
  end.

(** A variable bound by destructuring [req.body]. *)
Inductive variable : Type :=
  | Value (v : json)           (* an own property of the body *)
  | Shared (s : shared_object) (* the object [Object.prototype.vault] *)
  | Missing.                   (* [undefined] *)

(** [const { k } = req.body] for [k] one of [username], [salt],
    [verifier], [vault]: none is a method of [Object.prototype]. *)
Definition destructure (st : process) (body : object) (k : string)
  : variable :=
  match get_property st body k with
  | OwnValue v => Value v
  | InheritedVault s => Shared s
  | _ => Missing
  end.

(** [!x]. *)
Definition falsy (x : variable) : bool :=
  match x with
  | Value v => negb (truthy v)
  | Shared s => negb (shared_truthy s)
  | Missing => true
  end.

(** ToPropertyKey of a variable, in [users[username]]. *)
Definition property_key (x : variable) : outcome string :=
  match x with
  | Value v => to_string v
  | Shared (Acyclic v) => to_string v
  | Shared (Cyclic properties) => to_string (JObj properties)
  | Missing => Fulfilled "undefined"%string
  end.

(** What [JSON.stringify] writes for a variable held in a property, as
    the value the text is read back to: nothing for [undefined], a
    [TypeError] for an object that contains itself, and for a JSON value
    the value with [null] in place of every number that is not finite. *)
Definition stringify (x : variable) : outcome (option json) :=
  match x with
  | Value v => Fulfilled (Some (json_written v))
  | Shared (Acyclic v) => Fulfilled (Some (json_written v))
  | Shared (Cyclic _) => Rejected TypeError
  | Missing => Fulfilled None
  end.

Definition remove_own (k : string) (o : object) : object :=
  filter (fun kv => negb (String.eqb k (fst kv))) o.

(** The properties of an object after [o[k] = x], as [JSON.stringify]
    writes them. *)
Definition written (k : string) (x : variable) (o : object)
  : outcome object :=
  (let* v := stringify x in
   match v with
   | Some v => Fulfilled (set_own k v o)
   | None => Fulfilled (remove_own k o)
   end)%js.

(** What [res.status(s).json(b)] sends: the status and the JSON text of
    [b]; [None] is the empty body [res.json] sends for a value
    [JSON.stringify] has no text for. *)
Record response : Type := {
  status : N;
  sent : option json
}.

Definition json_response (s : N) (b : json) : response :=
  {| status := s; sent := Some b |}.

Definition error_response (s : N) (message : string) : response :=
  json_response s (JObj [("error"%string, JStr message)]).

Definition ok_response : response :=
  json_response 200 (JObj [("ok"%string, JBool true)]).

(** [initDB] on a disk without [users.json], in a fresh process. *)
Definition initDB : process :=
  {| users_json := []; prototype_vault := None |}.

(** [async function loadUsers() { return fs.readJson(DB_FILE); }] *)
Definition loadUsers (st : process) : object := users_json st.

(** [async function saveUsers(users) {
      return fs.writeJson(DB_FILE, users, { spaces: 2 }); }]
    on the properties [JSON.stringify] has written for [users]: the
    callers give the property they assigned as [written] has it, and the
    properties loaded from the file as they were read. *)
Definition saveUsers (users : object) (st : process) : process :=
  {| users_json := users; prototype_vault := prototype_vault st |}.

(** [users.json] holds what [JSON.stringify] wrote: every value in it is
    written as it is. *)
Definition file_as_written (st : process) : Prop :=
  forall k v, get_own k (users_json st) = Some v -> json_written v = v.

(** [[
app.post("/register", async (req, res) => {
  const { username, salt, verifier, vault } = req.body;
  if (!username || !salt || !verifier || !vault) {
    return res.status(400).json({ error: "Missing fields" });
  }
  const users = await loadUsers();
  if (users[username]) {
    return res.status(409).json({ error: "User exists" });
  }
  users[username] = { salt, verifier, vault };
  await saveUsers(users);
  res.json({ ok: true });
});
]] *)
Definition post_register (body : object) (st : process)
  : outcome response * process :=
  let username := destructure st body "username" in
  let salt := destructure st body "salt" in
  let verifier := destructure st body "verifier" in
  let vault := destructure st body "vault" in
  if falsy username || falsy salt || falsy verifier || falsy vault
  then (Fulfilled (error_response 400 "Missing fields"), st)
  else
    let users := loadUsers st in
    match property_key username with
    | Rejected e => (Rejected e, st)
    | Fulfilled key =>
        if property_truthy (get_property st users key)
        then (Fulfilled (error_response 409 "User exists"), st)
        else
          match (let* r1 := written "salt" salt [] in
                 let* r2 := written "verifier" verifier r1 in
                 written "vault" vault r2)%js
          with
          | Rejected e => (Rejected e, st)
          | Fulfilled record =>
              (Fulfilled ok_response,
               saveUsers (set_own key (JObj record) users) st)
          end
    end.

(** What [res.json(users[username])] sends, as the value its text is read
    back to. *)
Definition send_property (st : process) (p : property)
  : outcome (option json) :=
  match p with
  | OwnValue v => Fulfilled (Some (json_written v))
  | InheritedVault s => stringify (Shared s)
  | ObjectPrototype =>
      match prototype_vault st with
      | Some s =>
          (let* o := written "vault" (Shared s) [] in
           Fulfilled (Some (JObj o)))%js
      | None => Fulfilled (Some (JObj []))
      end
  | PrototypeMethod _ => Fulfilled None
  | Undefined => Fulfilled None
  end.

(** [[
app.post("/login", async (req, res) => {
  const { username } = req.body;
  if (!username) {
    return res.status(400).json({ error: "Missing username" });
  }
  const users = await loadUsers();
  if (!users[username]) {
    return res.status(404).json({ error: "No such user" });
  }
  res.json(users[username]);
});
]] *)
Definition post_login (body : object) (st : process)
  : outcome response * process :=
  let username := destructure st body "username" in
  if falsy username
  then (Fulfilled (error_response 400 "Missing username"), st)
  else
    let users := loadUsers st in
    match property_key username with
    | Rejected e => (Rejected e, st)
    | Fulfilled key =>
        let user := get_property st users key in
        if negb (property_truthy user)
        then (Fulfilled (error_response 404 "No such user"), st)
        else
          ((let* b := send_property st user in
            Fulfilled {| status := 200; sent := b |})%js, st)
    end.

(** [record.vault = vault] on a value of [users], in strict mode (the
    file is an ES module), as [JSON.stringify] writes the record
    afterwards: an object gets or replaces its own property, an array
    gets a property that is not written, and a primitive makes the
    assignment throw a [TypeError]. *)
Definition assign_vault (record : json) (vault : variable)
  : outcome json :=
  match record with
  | JObj properties =>
      (let* properties' := written "vault" vault properties in
       Fulfilled (JObj properties'))%js
  | JArr elements => Fulfilled (JArr elements)
  | _ => Rejected TypeError
  end.

(** [shared.vault = vault] on the object that is
    [Object.prototype.vault]; here a [vault] read through the prototype
    is that same object. *)
Definition assign_shared_vault (shared : shared_object) (vault : variable)
  : outcome shared_object :=
  match shared, vault with
  | Acyclic (JObj properties), Value v
  | Cyclic properties, Value v =>
      Fulfilled (Acyclic (JObj (set_own "vault" v properties)))
  | Acyclic (JObj properties), Shared _ =>
      Fulfilled (Cyclic (set_own "vault" JNull properties))
  | Cyclic properties, Shared _ => Fulfilled (Cyclic properties)
  | Acyclic (JObj properties), Missing
  | Cyclic properties, Missing =>
      Fulfilled (Acyclic (JObj (remove_own "vault" properties)))
  | Acyclic (JArr elements), _ => Fulfilled (Acyclic (JArr elements))
  | Acyclic _, _ => Rejected TypeError
  end.

(** [Object.prototype.vault = vault]. *)
Definition assign_prototype_vault (vault : variable)
  : option shared_object :=
  match vault with
  | Value v => Some (Acyclic v)
  | Shared s => Some s
  | Missing => None
  end.

(** [[
app.post("/updateVault", async (req, res) => {
  const { username, vault } = req.body;
  if (!username || !vault) {
    return res.status(400).json({ error: "Missing fields" });
  }
  const users = await loadUsers();
  if (!users[username]) {
    return res.status(404).json({ error: "No such user" });
  }
  users[username].vault = vault;
  await saveUsers(users);
  res.json({ ok: true });
});
]]
    [users[username]] is an own property of [users], or a value [users]
    inherits: then the assignment changes [Object.prototype] (for
    [__proto__]), the object that is [Object.prototype.vault], or one of
    the built-in functions (which no request reads again), and [users] is
    saved as it was loaded. *)
Definition post_updateVault (body : object) (st : process)
  : outcome response * process :=
  let username := destructure st body "username" in
  let vault := destructure st body "vault" in
  if falsy username || falsy vault
  then (Fulfilled (error_response 400 "Missing fields"), st)
  else
    let users := loadUsers st in
    match property_key username with
    | Rejected e => (Rejected e, st)
    | Fulfilled key =>
        let user := get_property st users key in
        if negb (property_truthy user)
        then (Fulfilled (error_response 404 "No such user"), st)
        else
          match user with
          | OwnValue record =>
              match assign_vault record vault with
              | Rejected e => (Rejected e, st)
              | Fulfilled record' =>
                  (Fulfilled ok_response,
                   saveUsers (set_own key record' users) st)
              end
          | InheritedVault shared =>
              match assign_shared_vault shared vault with
              | Rejected e => (Rejected e, st)
              | Fulfilled shared' =>
                  (Fulfilled ok_response,
                   saveUsers users
                     {| users_json := users_json st;
                        prototype_vault := Some shared' |})
              end
          | ObjectPrototype =>
              (Fulfilled ok_response,
               saveUsers users
                 {| users_json := users_json st;
                    prototype_vault := assign_prototype_vault vault |})
          | PrototypeMethod _ | Undefined =>
              (Fulfilled ok_response, saveUsers users st)
          end
    end.

(** The three routes of the password-manager API. *)
Inductive route : Type :=
  | route_register
  | route_login
  | route_updateVault.

(** A request to one of them.  [req.body] is the object [express.json()]
    parsed from a JSON body.  For a request without a JSON body it depends
    on the version of express, which the repository does not pin:
    express 4 sets [req.body] to [{}] (the request is [Register []]),
    express 5 leaves it [undefined] (the request is [WithoutBody]). *)
Inductive request : Type :=
  | Register (body : object)
  | Login (body : object)
  | UpdateVault (body : object)
  | WithoutBody (r : route).


(** The first statement of each handler, [const { username, ... } =
    req.body;], throws a [TypeError] when [req.body] is [undefined]. *)
Definition handle (r : request) (st : process)
  : outcome response * process :=
  match r with
  | Register body => post_register body st
  | Login body => post_login body st
  | UpdateVault body => post_updateVault body st
  | WithoutBody _ => (Rejected TypeError, st)
  end.

(** The server process after a sequence of requests. *)
Fixpoint serve (rs : list request) (st : process) : process :=
  match rs with
  | [] => st
  | r :: rs' => serve rs' (snd (handle r st))
  end.

(** ** pm-server/copy of the Server/server - Copy.js (its first server)

    The same three handlers, each inside
    [try { ... } catch (e) { console.error(e);
       res.status(500).json({ error: "Server error" }); }]. *)
Definition try_catch (r : outcome response * process)
  : outcome response * process :=
  match r with
  | (Rejected _, st) => (Fulfilled (error_response 500 "Server error"), st)
  | (Fulfilled _, _) => r
  end.

Definition copy_post_register (body : object) (st : process) :=
  try_catch (post_register body st).

Definition copy_post_login (body : object) (st : process) :=
  try_catch (post_login body st).

Definition copy_post_updateVault (body : object) (st : process) :=
  try_catch (post_updateVault body st).


End Server.

(** ** A small platform

    Instances of the classes on which the definitions above can be
    evaluated: integers for numbers (and, for the numbers a double cannot
    hold, the integers with the two infinities), a checksum in place of
    each cryptographic primitive, and an engine with a fixed limit on the
    arguments of a call. *)

Definition integer_numbers : JsNumber :=
  {| number := Z;
     number_is_zero := Z.eqb 0;
     number_to_string := fun z => NilZero.string_of_int (Z.to_int z);
     number_written := Some;
     number_written_again := fun n n' H => eq_refl |}.

(** The integers and the two infinities, the values of the JSON literals
    without fraction, such as [7] and [1e400]. *)
Inductive extended_integer : Type :=
  | Finite (z : Z)
  | Infinity (negative : bool).

Definition extended_is_zero (n : extended_integer) : bool :=
  match n with
  | Finite z => Z.eqb 0 z
  | Infinity _ => false
  end.

Definition extended_to_string (n : extended_integer) : string :=
  match n with
  | Finite z => NilZero.string_of_int (Z.to_int z)
  | Infinity false => "Infinity"
  | Infinity true => "-Infinity"
  end.

Definition extended_written (n : extended_integer)
  : option extended_integer :=
  match n with
  | Finite z => Some (Finite z)
  | Infinity _ => None
  end.

Definition extended_written_again (n n' : extended_integer)
  : extended_written n = Some n' -> extended_written n' = Some n' :=
  let stable (o : option extended_integer) : Prop :=
    match o with
    | Some m => extended_written m = Some m
    | None => True
    end in
  match n as n0
    return extended_written n0 = Some n' -> extended_written n' = Some n'
  with
  | Finite z => fun H =>
      match H in (_ = o) return stable o with eq_refl => eq_refl end
  | Infinity _ => fun H =>
      match H in (_ = o) return stable o with eq_refl => I end
  end.

Definition extended_numbers : JsNumber :=
  {| number := extended_integer;
     number_is_zero := extended_is_zero;
     number_to_string := extended_to_string;
     number_written := extended_written;
     number_written_again := extended_written_again |}.

(** An engine whose calls take at most 65536 arguments, and an array of
    130000 bytes. *)
Definition small_engine : Engine := {| max_arguments := 65536 |}.

Definition long_array : bytes := repeat x00 (N.to_nat 130000).

Fixpoint bytes_eqb (a b : bytes) : bool :=
  match a, b with
  | [], [] => true
  | x :: a', y :: b' => Byte.eqb x y && bytes_eqb a' b'
  | _, _ => false
  end.

Definition xor_byte (a b : byte) : byte :=
  ToUint8 (N.lxor (Byte.to_N a) (Byte.to_N b)).

Definition checksum (l : bytes) : byte := fold_right xor_byte x00 l.

Definition checksum_tag (key iv plaintext : bytes) : bytes :=
  checksum (key ++ iv ++ plaintext) :: repeat x00 15.

Definition checksum_encrypt (key iv plaintext : bytes) : bytes :=
  map (xor_byte (checksum (key ++ iv))) plaintext
    ++ checksum_tag key iv plaintext.

Definition checksum_decrypt (key iv data : bytes) : option bytes :=
  let n := (List.length data - 16)%nat in
  let plaintext := map (xor_byte (checksum (key ++ iv))) (firstn n data) in
  if bytes_eqb (skipn n data) (checksum_tag key iv plaintext)
  then Some plaintext else None.

Definition checksum_kdf (password salt : bytes) (iterations length : N)
  : bytes :=
  let n := N.to_nat (length / 8) in
  firstn n (password ++ salt ++ repeat (ToUint8 iterations) n).

Definition checksum_platform : @Platform integer_numbers :=
  {| PBKDF2_HMAC_SHA256 := checksum_kdf;
     AES_GCM_encrypt := checksum_encrypt;
     AES_GCM_decrypt := checksum_decrypt;
     ECDSA_P256_SHA256_verify :=
       fun key signature data =>
         bytes_eqb signature [checksum (key ++ data)];
     TextDecoder_decode := string_of_list_byte;
     JSON_parse := fun _ => None;
     global_binding := fun _ => None |}.

(** The password and salt of the spec's example scenario. *)
Definition example_password : string := "correct horse battery staple".

Definition example_salt : bytes := repeat x00 16.

(** An AES-GCM key as [pbkdf2Key] returns it. *)
Definition example_key : CryptoKey :=
  {| key_kind := type_secret;
     key_algorithm := AES_GCM;
     key_extractable := false;
     key_usages := [usage_encrypt; usage_decrypt];
     key_data := repeat x01 32 |}.

(** A vault whose tag does not verify under the example key. *)
Definition tampered_iv : bytes := repeat x00 12.

Definition tampered_ciphertext : bytes := repeat xff 20.

(** A random source that counts. *)
Definition counting_source : random_source :=
  {| rs_stream := fun i => ToUint8 (N.of_nat i); rs_taken := 0 |}.

(** ** Example requests *)

(** A vault as the client sends it. *)
Definition example_vault : @json integer_numbers :=
  JObj [("iv", JStr "AAAAAAAAAAAAAAAA");
        ("ciphertext", JStr "3q2+7w==")]%string.

(** [POST /updateVault] for the username [__proto__]. *)
Definition update_proto : @request integer_numbers :=
  UpdateVault [("username", JStr "__proto__");
               ("vault", example_vault)]%string.

(** [POST /register] with no [vault] in the body. *)
Definition register_bob_without_vault : @request integer_numbers :=
  Register [("username", JStr "bob");
            ("salt", JStr "c2FsdHNhbHRzYWx0c2FsdA==");
            ("verifier", JStr "dmVyaWZpZXI=")]%string.

(** [users.json] with one registered user. *)
Definition alice_registered : @process integer_numbers :=
  {| users_json :=
       [("alice",
         JObj [("salt", JStr "c2FsdHNhbHRzYWx0c2FsdA==");
               ("verifier", JStr "dmVyaWZpZXI=");
               ("vault", JObj [("iv", JStr "BBBBBBBBBBBBBBBB");
                               ("ciphertext", JStr "AAEC")])])]%string;
     prototype_vault := None |}.

(** [POST /register] for alice, as the client sends it. *)
Definition register_alice_body : @object integer_numbers :=
  [("username", JStr "alice");
   ("salt", JStr "c2FsdHNhbHRzYWx0c2FsdA==");
   ("verifier", JStr "dmVyaWZpZXI=");
   ("vault", JObj [("iv", JStr "BBBBBBBBBBBBBBBB");
                   ("ciphertext", JStr "AAEC")])]%string.

Definition register_alice : @request integer_numbers :=
  Register register_alice_body.

(** [users.json] edited by hand: the value under [mallory] is a string. *)
Definition string_record : @process integer_numbers :=
  {| users_json := [("mallory", JStr "not a record")]%string;
     prototype_vault := None |}.

Definition update_mallory : @object integer_numbers :=
  [("username", JStr "mallory"); ("vault", example_vault)]%string.

Definition login_bob : @request integer_numbers :=
  Login [("username", JStr "bob")]%string.


(** ** The rest of js/crypto-utils.js

    The helpers for file keys, the HMAC over metadata, the ECDSA key pair
    and its interchange formats, and [concatBytes].  The primitives they
    reach beside those of [Platform]: *)

Class KeyPrimitives : Type := {
  (** HMAC with SHA-256: key, data. *)
  HMAC_SHA256 : bytes -> bytes -> bytes;
  (** Generation of a P-256 key pair from the platform's randomness: the
      private and the public key. *)
  ECDSA_P256_generate : random_source -> (bytes * bytes) * random_source;
  (** ECDSA signing over P-256 with SHA-256: private key, data; the
      per-signature secret comes from the platform's randomness. *)
  ECDSA_P256_SHA256_sign :
    bytes -> bytes -> random_source -> bytes * random_source;
  (** The SubjectPublicKeyInfo encoding of a public key, and its parsing. *)
  SPKI_encode : bytes -> bytes;
  SPKI_decode : bytes -> option bytes;
  (** The PKCS#8 encoding of a private key, and its parsing. *)
  PKCS8_encode : bytes -> bytes;
  PKCS8_decode : bytes -> option bytes
}.

(** What a call can throw beside the exceptions above: the
    [NotSupportedError] of [exportKey]. *)
Inductive thrown : Type :=
  | Exception (e : exn)
  | NotSupportedError.

Inductive result (A : Type) : Type :=
  | Returned (a : A)
  | Thrown (t : thrown).

Arguments Returned {A} a.
Arguments Thrown {A} t.

Inductive key_format : Type := format_raw | format_spki | format_pkcs8.

(** The object [generateKey] returns for ECDSA. *)
Record CryptoKeyPair : Type := {
  publicKey : CryptoKey;
  privateKey : CryptoKey
}.

(** The usages of [us] that are among [allowed], in the order of [us]. *)
Definition usages_among (us allowed : list key_usage) : list key_usage :=
  filter (fun u => existsb (usage_eqb u) allowed) us.

Section KeyHelpers.

Context {JN : JsNumber} {P : Platform} {K : KeyPrimitives}.

Local Open Scope N_scope.

(** [generateKey({ name:'AES-GCM', length }, extractable, usages)]: the key
    is [length] random bits. *)
Definition subtle_generateKey_AES_GCM
    (length : N) (extractable : bool) (usages : list key_usage)
    (rs : random_source) : outcome CryptoKey * random_source :=
  if negb (usages_within usages
             [usage_encrypt; usage_decrypt; usage_wrapKey; usage_unwrapKey])
  then (Rejected SyntaxError, rs)
  else if negb ((length =? 128) || (length =? 192) || (length =? 256))
  then (Rejected OperationError, rs)
  else
    let key := {| key_kind := type_secret;
                  key_algorithm := AES_GCM;
                  key_extractable := extractable;
                  key_usages := usages;
                  key_data := draw (N.to_nat (length / 8)) rs |} in
    let rs' := advance (N.to_nat (length / 8)) rs in
    if is_empty usages then (Rejected SyntaxError, rs')
    else (Fulfilled key, rs').

(** [importKey('raw', data, { name:'AES-GCM' }, extractable, usages)]. *)
Definition subtle_importKey_raw_AES_GCM
    (data : bytes) (extractable : bool) (usages : list key_usage)
  : outcome CryptoKey :=
  if negb (usages_within usages
             [usage_encrypt; usage_decrypt; usage_wrapKey; usage_unwrapKey])
  then Rejected SyntaxError
  else if negb ((List.length data =? 16)%nat || (List.length data =? 24)%nat
                || (List.length data =? 32)%nat)
  then Rejected DataError
  else if is_empty usages then Rejected SyntaxError
  else Fulfilled {| key_kind := type_secret;
                    key_algorithm := AES_GCM;
                    key_extractable := extractable;
                    key_usages := usages;
                    key_data := data |}.

(** [exportKey(format, key)]: PBKDF2 keys have no export; a key that is not
    extractable is an [InvalidAccessError]; AES and HMAC keys have the
    format [raw] only, and of an ECDSA pair the public key has [spki] and
    [raw], the private key [pkcs8]. *)
Definition subtle_exportKey (format : key_format) (key : CryptoKey)
  : result bytes :=
  match key_algorithm key with
  | PBKDF2 => Thrown NotSupportedError
  | algorithm =>
      if negb (key_extractable key)
      then Thrown (Exception InvalidAccessError)
      else
        match algorithm, format, key_kind key with
        | ECDSA, format_spki, type_public =>
            Returned (SPKI_encode (key_data key))
        | ECDSA, format_pkcs8, type_private =>
            Returned (PKCS8_encode (key_data key))
        | ECDSA, format_raw, type_public => Returned (key_data key)
        | ECDSA, _, _ => Thrown (Exception InvalidAccessError)
        | _, format_raw, _ => Returned (key_data key)
        | _, _, _ => Thrown NotSupportedError
        end
  end.

(** [sign('HMAC', key, data)]. *)
Definition subtle_sign_HMAC (key : CryptoKey) (data : bytes)
  : outcome bytes :=
  if negb (algorithm_eqb (key_algorithm key) HMAC)
  then Rejected InvalidAccessError
  else if negb (has_usage usage_sign key)
  then Rejected InvalidAccessError
  else Fulfilled (HMAC_SHA256 (key_data key) data).

(** [verify('HMAC', key, signature, data)]: the MAC of the data is computed
    and compared with the signature. *)
Definition subtle_verify_HMAC (key : CryptoKey) (signature data : bytes)
  : outcome bool :=
  if negb (algorithm_eqb (key_algorithm key) HMAC)
  then Rejected InvalidAccessError
  else if negb (has_usage usage_verify key)
  then Rejected InvalidAccessError
  else Fulfilled (bytes_eqb (HMAC_SHA256 (key_data key) data) signature).

(** [generateKey({ name:'ECDSA', namedCurve:'P-256' }, extractable,
    usages)]: the public key is always extractable and gets the usage
    [verify], the private key gets the usage [sign]; a generated private
    key without usages is a [SyntaxError]. *)
Definition subtle_generateKey_ECDSA
    (extractable : bool) (usages : list key_usage) (rs : random_source)
  : outcome CryptoKeyPair * random_source :=
  if negb (usages_within usages [usage_sign; usage_verify])
  then (Rejected SyntaxError, rs)
  else
    let '((private, public), rs') := ECDSA_P256_generate rs in
    if is_empty (usages_among usages [usage_sign])
    then (Rejected SyntaxError, rs')
    else
      (Fulfilled
         {| publicKey :=
              {| key_kind := type_public;
                 key_algorithm := ECDSA;
                 key_extractable := true;
                 key_usages := usages_among usages [usage_verify];
                 key_data := public |};
            privateKey :=
              {| key_kind := type_private;
                 key_algorithm := ECDSA;
                 key_extractable := extractable;
                 key_usages := usages_among usages [usage_sign];
                 key_data := private |} |},
       rs').

(** [sign({ name:'ECDSA', hash:'SHA-256' }, key, data)]. *)
Definition subtle_sign_ECDSA
    (key : CryptoKey) (data : bytes) (rs : random_source)
  : outcome bytes * random_source :=
  if negb (algorithm_eqb (key_algorithm key) ECDSA)
  then (Rejected InvalidAccessError, rs)
  else if negb (has_usage usage_sign key)
  then (Rejected InvalidAccessError, rs)
  else match key_kind key with
       | type_private =>
           let '(signature, rs') :=
             ECDSA_P256_SHA256_sign (key_data key) data rs in
           (Fulfilled signature, rs')
       | _ => (Rejected InvalidAccessError, rs)
       end.

(** [importKey('spki', data, { name:'ECDSA', namedCurve:'P-256' },
    extractable, usages)]. *)
Definition subtle_importKey_spki_ECDSA
    (data : bytes) (extractable : bool) (usages : list key_usage)
  : outcome CryptoKey :=
  if negb (usages_within usages [usage_verify]) then Rejected SyntaxError
  else match SPKI_decode data with
       | None => Rejected DataError
       | Some public =>
           Fulfilled {| key_kind := type_public;
                        key_algorithm := ECDSA;
                        key_extractable := extractable;
                        key_usages := usages;
                        key_data := public |}
       end.

(** [importKey('pkcs8', data, { name:'ECDSA', namedCurve:'P-256' },
    extractable, usages)]. *)
Definition subtle_importKey_pkcs8_ECDSA
    (data : bytes) (extractable : bool) (usages : list key_usage)
  : outcome CryptoKey :=
  if negb (usages_within usages [usage_sign]) then Rejected SyntaxError
  else match PKCS8_decode data with
       | None => Rejected DataError
       | Some private =>
           if is_empty usages then Rejected SyntaxError
           else Fulfilled {| key_kind := type_private;
                             key_algorithm := ECDSA;
                             key_extractable := extractable;
                             key_usages := usages;
                             key_data := private |}
       end.

(** [[
export async function genFileKey(){
    return crypto.subtle.generateKey({ name:'AES-GCM', length:256 }, true, ['encrypt','decrypt']);
}
]] *)
Definition genFileKey (rs : random_source)
  : outcome CryptoKey * random_source :=
  subtle_generateKey_AES_GCM 256 true [usage_encrypt; usage_decrypt] rs.

(** [[
export async function exportRawKey(key){
    const raw = new Uint8Array(await crypto.subtle.exportKey('raw', key));
    return raw;
}
]] *)
Definition exportRawKey (key : CryptoKey) : result bytes :=
  subtle_exportKey format_raw key.

(** [[
export async function importRawAesKey(raw){
    return crypto.subtle.importKey('raw', raw, {name:'AES-GCM'}, false, ['encrypt','decrypt']);
}
]] *)
Definition importRawAesKey (raw : bytes) : outcome CryptoKey :=
  subtle_importKey_raw_AES_GCM raw false [usage_encrypt; usage_decrypt].

(** [[
export async function hmac(macKey, bytes){
    const sig = await crypto.subtle.sign('HMAC', macKey, bytes);
    return new Uint8Array(sig);
}
]] *)
Definition hmac (macKey : CryptoKey) (data : bytes) : outcome bytes :=
  (let* sig := subtle_sign_HMAC macKey data in
   Fulfilled sig)%js.

(** [[
export async function hmacVerify(macKey, bytes, sig){
    return crypto.subtle.verify('HMAC', macKey, sig, bytes);
}
]] *)
Definition hmacVerify (macKey : CryptoKey) (data sig : bytes)
  : outcome bool :=
  subtle_verify_HMAC macKey sig data.

(** [[
export async function genEcdsaKeyPair(){
    return crypto.subtle.generateKey({ name:'ECDSA', namedCurve:'P-256' }, true, ['sign','verify']);
}
]] *)
Definition genEcdsaKeyPair (rs : random_source)
  : outcome CryptoKeyPair * random_source :=
  subtle_generateKey_ECDSA true [usage_sign; usage_verify] rs.

(** [[
export async function ecdsaSign(privateKey, dataBytes){
    return new Uint8Array(await crypto.subtle.sign({ name:'ECDSA', hash:'SHA-256' }, privateKey, dataBytes));
}
]] *)
Definition ecdsaSign
    (privateKey : CryptoKey) (dataBytes : bytes) (rs : random_source)
  : outcome bytes * random_source :=
  subtle_sign_ECDSA privateKey dataBytes rs.

(** [[
export async function exportSpki(pub){
    return new Uint8Array(await crypto.subtle.exportKey('spki', pub));
}
export async function exportPkcs8(priv){
    return new Uint8Array(await crypto.subtle.exportKey('pkcs8', priv));
}
]] *)
Definition exportSpki (pub : CryptoKey) : result bytes :=
  subtle_exportKey format_spki pub.

Definition exportPkcs8 (priv : CryptoKey) : result bytes :=
  subtle_exportKey format_pkcs8 priv.

(** [[
export async function importSpki(spki){
    return crypto.subtle.importKey('spki', spki, {name:'ECDSA', namedCurve:'P-256'}, true, ['verify']);
}
export async function importPkcs8(pkcs8){
    return crypto.subtle.importKey('pkcs8', pkcs8, {name:'ECDSA', namedCurve:'P-256'}, true, ['sign']);
}
]] *)
Definition importSpki (spki : bytes) : outcome CryptoKey :=
  subtle_importKey_spki_ECDSA spki true [usage_verify].

Definition importPkcs8 (pkcs8 : bytes) : outcome CryptoKey :=
  subtle_importKey_pkcs8_ECDSA pkcs8 true [usage_sign].

End KeyHelpers.

(** [new Uint8Array(len)]: [len] zero bytes. *)
Definition Uint8Array_new (len : nat) : bytes := repeat x00 len.

(** [out.set(a, o)]: the bytes of [a] are written into [out] from offset
    [o]; a source that does not fit is a [RangeError]. *)
Definition Uint8Array_set (out a : bytes) (o : nat) : result bytes :=
  if (List.length out <? o + List.length a)%nat
  then Thrown (Exception RangeError)
  else Returned (firstn o out ++ a ++ skipn (o + List.length a) out).

(** [let o=0; for(const a of arrs){ out.set(a,o); o+=a.length; }] *)
Fixpoint concatBytes_loop (arrs : list bytes) (out : bytes) (o : nat)
  : result bytes :=
  match arrs with
  | [] => Returned out
  | a :: rest =>
      match Uint8Array_set out a o with
      | Thrown t => Thrown t
      | Returned out' => concatBytes_loop rest out' (o + List.length a)
      end
  end.

(** [[
export function concatBytes(...arrs){
    const len = arrs.reduce((a,b)=>a+b.length,0);
    const out = new Uint8Array(len); let o=0; for(const a of arrs){ out.set(a,o); o+=a.length; }
    return out;
}
]] *)
Definition concatBytes (arrs : list bytes) : result bytes :=
  let len := fold_left (fun a b => a + List.length b)%nat arrs 0%nat in
  let out := Uint8Array_new len in
  concatBytes_loop arrs out 0.

(** A character [b64] can produce: one of the alphabet, or the padding. *)
Definition base64_character (c : N) : Prop :=
  Base64.char_sextet c <> None \/ c = Base64.pad.

(** A record as [/register] writes it: an object with a salt, a verifier
    and a vault. *)
Definition complete_record {JN : JsNumber} (v : json) : Prop :=
  exists properties salt verifier vault,
    v = JObj properties
    /\ get_own "salt" properties = Some salt
    /\ get_own "verifier" properties = Some verifier
    /\ get_own "vault" properties = Some vault.

Definition records_are_complete {JN : JsNumber} (st : process) : Prop :=
  forall k v, get_own k (users_json st) = Some v -> complete_record v.

(** The three handlers of the copy as one function of the request; the
    destructuring of [req.body] is inside the [try] as well. *)
Definition copy_handle {JN : JsNumber} (r : request) (st : process)
  : outcome response * process :=
  match r with
  | Register body => copy_post_register body st
  | Login body => copy_post_login body st
  | UpdateVault body => copy_post_updateVault body st
  | WithoutBody _ => try_catch (Rejected TypeError, st)
  end.

(** ** The small platform, continued *)

Definition checksum_keys : KeyPrimitives :=
  {| HMAC_SHA256 := fun key data => [checksum (key ++ data)];
     ECDSA_P256_generate :=
       fun rs => ((draw 4 rs, draw 4 rs), advance 4 rs);
     ECDSA_P256_SHA256_sign :=
       fun key data rs => ([checksum (key ++ data)], rs);
     SPKI_encode := fun public => x30 :: public;
     SPKI_decode :=
       fun data => match data with
                   | x30 :: public => Some public
                   | _ => None
                   end;
     PKCS8_encode := fun private => x31 :: private;
     PKCS8_decode :=
       fun data => match data with
                   | x31 :: private => Some private
                   | _ => None
                   end |}.

(** The key pair [genEcdsaKeyPair] returns on the counting source. *)
Definition example_pair : CryptoKeyPair :=
  {| publicKey :=
       {| key_kind := type_public; key_algorithm := ECDSA;
          key_extractable := true; key_usages := [usage_verify];
          key_data := draw 4 counting_source |};
     privateKey :=
       {| key_kind := type_private; key_algorithm := ECDSA;
          key_extractable := true; key_usages := [usage_sign];
          key_data := draw 4 counting_source |} |}.

(** The two keys [deriveEncAndMac] returns in the example scenario. *)
Definition example_keys : EncAndMac :=
  {| aesKey :=
       {| key_kind := type_secret; key_algorithm := AES_GCM;
          key_extractable := false;
          key_usages := [usage_encrypt; usage_decrypt];
          key_data :=
            checksum_kdf (list_byte_of_string example_password)
              example_salt 150000 256 |};
     macKey :=
       {| key_kind := type_secret; key_algorithm := HMAC;
          key_extractable := false;
          key_usages := [usage_sign; usage_verify];
          key_data :=
            checksum_kdf (list_byte_of_string example_password)
              example_salt 150000 256 |} |}.





Definition overflow : @json extended_numbers :=
  @JNum extended_numbers (Infinity false).


Definition register_dave_overflow : @object extended_numbers :=
  [("username", JStr "dave"); ("salt", overflow);
   ("verifier", JStr "dg=="); ("vault", JStr "AAEC")]%string.


Definition login_carol : @object extended_numbers :=
  [("username", JStr "carol")]%string.


(* ===================================================================== *)
(** * Part II: theorems                                                   *)
(* ===================================================================== *)

(** ** Base64 *)

Section Base64Facts.

Import Base64.
Local Open Scope N_scope.

(** Boolean comparisons on [N] as propositions, for [lia]. *)
Ltac N_reflect :=
  repeat match goal with
         | H : (_ <? _) = true |- _ => apply N.ltb_lt in H
         | H : (_ <? _) = false |- _ => apply N.ltb_ge in H
         | H : (_ <=? _) = true |- _ => apply N.leb_le in H
         | H : (_ <=? _) = false |- _ => apply N.leb_gt in H
         | H : (_ =? _) = true |- _ => apply N.eqb_eq in H
         | H : (_ =? _) = false |- _ => apply N.eqb_neq in H
         end.

Lemma char_sextet_sextet_char (n : N) :
  n < 64 -> char_sextet (sextet_char n) = Some n.
Proof.
  intros Hn. destruct n as [|p]; [reflexivity|].
  do 6 (destruct p as [p|p|]; try reflexivity); exfalso; lia.
Qed.

Lemma sextet_char_lower (n : N) : 43 <= sextet_char n.
Proof.
  unfold sextet_char.
  repeat match goal with
         | |- context [if ?b then _ else _] =>
             let E := fresh "E" in destruct b eqn:E
         end; N_reflect; lia.
Qed.

Lemma sextet_char_not_pad (n : N) : (sextet_char n =? pad) = false.
Proof.
  apply N.eqb_neq. unfold sextet_char, pad.
  repeat match goal with
         | |- context [if ?b then _ else _] =>
             let E := fresh "E" in destruct b eqn:E
         end; N_reflect; lia.
Qed.

Lemma sextet_char_not_whitespace (n : N) :
  is_ascii_whitespace (sextet_char n) = false.
Proof.
  pose proof (sextet_char_lower n) as H. unfold is_ascii_whitespace.
  repeat (apply orb_false_intro); apply N.eqb_neq; lia.
Qed.

(** Induction over a list three elements at a time, the way [encode]
    consumes it. *)
Lemma list_ind3 (A : Type) (P : list A -> Prop) :
  P [] ->
  (forall a, P [a]) ->
  (forall a b, P [a; b]) ->
  (forall a b c r, P r -> P (a :: b :: c :: r)) ->
  forall l, P l.
Proof.
  intros H0 H1 H2 H3.
  assert (H : forall l, P l /\ (forall a, P (a :: l))
                        /\ (forall a b, P (a :: b :: l))).
  { induction l as [|x l [IH0 [IH1 IH2]]].
    - repeat split; auto.
    - repeat split; auto. }
  intros l. apply H.
Qed.

Lemma encode_no_whitespace (l : list N) :
  filter (fun c => negb (is_ascii_whitespace c)) (encode l) = encode l.
Proof.
  induction l as [| a | a b | a b c r IH] using list_ind3;
    cbn [encode filter];
    rewrite ?sextet_char_not_whitespace; cbn [negb];
    try reflexivity.
  now rewrite IH.
Qed.

Lemma encode_length (l : list N) :
  exists k, List.length (encode l) = (k * 4)%nat.
Proof.
  induction l as [| a | a b | a b c r [k IH]] using list_ind3.
  - now exists 0%nat.
  - now exists 1%nat.
  - now exists 1%nat.
  - exists (S k). cbn [encode List.length]. rewrite IH. reflexivity.
Qed.

Lemma strip_padding_encode (l : list N) :
  strip_padding (encode l) = strip_trailing_pad (encode l).
Proof.
  unfold strip_padding. destruct (encode_length l) as [k ->].
  now rewrite Nat.Div0.mod_mul.
Qed.

Lemma strip_trailing_pad_group (x1 x2 x3 n : N) (r : list N) :
  strip_trailing_pad (x1 :: x2 :: x3 :: sextet_char n :: encode r)
  = x1 :: x2 :: x3 :: sextet_char n :: strip_trailing_pad (encode r).
Proof.
  destruct r as [|a [|b [|c r]]]; cbn [encode strip_trailing_pad];
    rewrite ?sextet_char_not_pad; reflexivity.
Qed.

(** The sextets read back from an encoding decode to the encoded octets. *)
Lemma decode_groups_encode (l : list N) :
  Forall (fun a => a < 256) l ->
  exists ns, sextets (strip_trailing_pad (encode l)) = Some ns
             /\ decode_groups ns = Some l.
Proof.
  induction l as [| a | a b | a b c r IH] using list_ind3; intros Hl.
  - exists []. split; reflexivity.
  - inversion Hl as [|? ? Ha _]; subst.
    exists [a / 4; (a mod 4) * 16].
    cbn [encode strip_trailing_pad]. rewrite ?sextet_char_not_pad.
    change (pad =? pad) with true. cbn [sextets].
    rewrite !char_sextet_sextet_char by lia.
    split; [reflexivity|]. cbn [decode_groups]. do 2 f_equal. lia.
  - inversion Hl as [|? ? Ha Hl']; subst.
    inversion Hl' as [|? ? Hb _]; subst.
    exists [a / 4; (a mod 4) * 16 + b / 16; (b mod 16) * 4].
    cbn [encode strip_trailing_pad]. rewrite ?sextet_char_not_pad.
    change (pad =? pad) with true. cbn [sextets].
    rewrite !char_sextet_sextet_char by lia.
    split; [reflexivity|]. cbn [decode_groups].
    f_equal. f_equal; [lia|]. f_equal. lia.
  - inversion Hl as [|? ? Ha Hl1]; subst.
    inversion Hl1 as [|? ? Hb Hl2]; subst.
    inversion Hl2 as [|? ? Hc Hr]; subst.
    destruct (IH Hr) as [ns [Hs Hd]].
    exists (a / 4 :: (a mod 4) * 16 + b / 16
              :: (b mod 16) * 4 + c / 64 :: c mod 64 :: ns).
    cbn [encode]. rewrite strip_trailing_pad_group. cbn [sextets].
    rewrite !char_sextet_sextet_char by lia. rewrite Hs.
    split; [reflexivity|]. cbn [decode_groups]. rewrite Hd.
    f_equal. f_equal; [lia|]. f_equal; [lia|]. f_equal. lia.
Qed.

Lemma forgiving_decode_encode (l : list N) :
  Forall (fun a => a < 256) l -> forgiving_decode (encode l) = Some l.
Proof.
  intros Hl. unfold forgiving_decode.
  rewrite encode_no_whitespace, strip_padding_encode.
  destruct (decode_groups_encode l Hl) as [ns [-> Hd]]. exact Hd.
Qed.

(** [atob] inverts [btoa] on every string [btoa] accepts. *)
Lemma atob_btoa (s t : jsstring) :
  btoa s = Fulfilled t -> atob t = Fulfilled s.
Proof.
  unfold btoa, atob. destruct (forallb _ s) eqn:E; [|discriminate].
  intros [= <-]. rewrite forgiving_decode_encode; [reflexivity|].
  rewrite forallb_forall in E. apply Forall_forall. intros c Hc.
  specialize (E c Hc). apply N.leb_le in E. lia.
Qed.

End Base64Facts.

(** ** The byte utilities of crypto-utils.js *)

Lemma ToUint8_to_N (b : byte) : ToUint8 (Byte.to_N b) = b.
Proof.
  unfold ToUint8. pose proof (Byte.to_N_bounded b) as H.
  rewrite N.mod_small by lia. now rewrite Byte.of_to_N.
Qed.

Lemma Uint8Array_of_char_codes (u : bytes) :
  Uint8Array_of_charCodes (char_codes u) = u.
Proof.
  unfold Uint8Array_of_charCodes, char_codes.
  rewrite map_map. rewrite <- (map_id u) at 2.
  apply map_ext. intros b. apply ToUint8_to_N.
Qed.

Lemma char_codes_latin1 (u : bytes) :
  forallb (fun c => (c <=? 255)%N) (char_codes u) = true.
Proof.
  apply forallb_forall. intros c Hc. unfold char_codes in Hc.
  apply in_map_iff in Hc. destruct Hc as [b [<- _]].
  apply N.leb_le, Byte.to_N_bounded.
Qed.

(** [btoa] takes every string of bytes. *)
Lemma btoa_char_codes (u : bytes) :
  Base64.btoa (char_codes u) = Fulfilled (Base64.encode (char_codes u)).
Proof. unfold Base64.btoa. now rewrite char_codes_latin1. Qed.

Section ByteUtilities.

Context {E : Engine}.

(** [b64] returns for every array the spread can pass on: the string it
    hands to [btoa] is made of bytes. *)
Lemma b64_fulfilled (u : bytes) :
  (N.of_nat (List.length u) <= max_arguments)%N ->
  b64 u = Fulfilled (Base64.encode (char_codes u)).
Proof.
  intros H. unfold b64, String_fromCharCode.
  apply N.ltb_ge in H. rewrite H. cbn [bind]. apply btoa_char_codes.
Qed.

(** A longer array makes the spread throw. *)
Lemma b64_too_long (u : bytes) :
  (max_arguments < N.of_nat (List.length u))%N ->
  b64 u = Rejected RangeError.
Proof.
  intros H. unfold b64, String_fromCharCode.
  apply N.ltb_lt in H. now rewrite H.
Qed.

(** What [b64] returns, when it returns. *)
Lemma b64_returns (u : bytes) (s : jsstring) :
  b64 u = Fulfilled s ->
  (N.of_nat (List.length u) <= max_arguments)%N
  /\ s = Base64.encode (char_codes u).
Proof.
  unfold b64, String_fromCharCode.
  destruct (max_arguments <? _)%N eqn:H; cbn [bind]; [discriminate|].
  rewrite btoa_char_codes. intros [= <-]. split; [|reflexivity].
  now apply N.ltb_ge.
Qed.

(** C10, as the code has it: for every byte array [u] that has no more
    bytes than a call of the engine takes arguments, [ub64(b64(u))] is
    [u]: [b64] returns a string and [ub64] of that string returns the
    original bytes. *)
Theorem ub64_b64_within_limit (u : bytes) :
  (N.of_nat (List.length u) <= max_arguments)%N ->
  exists s, b64 u = Fulfilled s /\ ub64 s = Fulfilled u.
Proof.
  intros H. exists (Base64.encode (char_codes u)). split.
  - now apply b64_fulfilled.
  - unfold ub64. rewrite (atob_btoa _ _ (btoa_char_codes u)). cbn [bind].
    now rewrite Uint8Array_of_char_codes.
Qed.

End ByteUtilities.

Lemma ub64_b64_within_limit_witness :
  (N.of_nat (List.length (list_byte_of_string "foobar"))
   <= max_arguments (Engine := small_engine))%N
  /\ exists s,
       b64 (E := small_engine) (list_byte_of_string "foobar") = Fulfilled s
       /\ ub64 s = Fulfilled (list_byte_of_string "foobar").
Proof.
  split; [vm_compute; discriminate|].
  apply (ub64_b64_within_limit (E := small_engine)
           (list_byte_of_string "foobar")).
  vm_compute; discriminate.
Defined.

(** C10 as the spec states it fails on an array of 130000 bytes: the spread
    in [b64] throws a [RangeError], and there is no string to decode. *)
Lemma b64_long_array_throws :
  b64 (E := small_engine) long_array = Rejected RangeError
  /\ ~ (exists s, b64 (E := small_engine) long_array = Fulfilled s
                  /\ ub64 s = Fulfilled long_array).
Proof.
  assert (H : b64 (E := small_engine) long_array = Rejected RangeError)
    by (vm_compute; reflexivity).
  split; [exact H|]. intros [s [Hs _]]. rewrite H in Hs. discriminate.
Qed.

(** Two worked encodings (RFC 4648, section 10). *)
Example b64_foobar :
  b64 (E := small_engine) (list_byte_of_string "foobar")
  = Fulfilled (map Byte.to_N (list_byte_of_string "Zm9vYmFy")).
Proof. reflexivity. Qed.

Example b64_fo :
  b64 (E := small_engine) (list_byte_of_string "fo")
  = Fulfilled (map Byte.to_N (list_byte_of_string "Zm8=")).
Proof. reflexivity. Qed.

Example ub64_padded :
  ub64 (map Byte.to_N (list_byte_of_string "Zg=="))
  = Fulfilled (list_byte_of_string "f").
Proof. reflexivity. Qed.

(** [atob] accepts unpadded data and data with white space, and refuses a
    length of 4k+1 and padding in the wrong place. *)
Example atob_forgiving :
  Base64.atob (map Byte.to_N (list_byte_of_string "Zg"))
  = Fulfilled [102%N]
  /\ Base64.atob (map Byte.to_N (list_byte_of_string " Zm 9v "))
     = Fulfilled [102%N; 111%N; 111%N]
  /\ Base64.atob (map Byte.to_N (list_byte_of_string "Zg="))
     = Rejected InvalidCharacterError
  /\ Base64.atob (map Byte.to_N (list_byte_of_string "Zm9vY"))
     = Rejected InvalidCharacterError.
Proof. repeat split. Qed.

Example ub64_not_base64 :
  ub64 (map Byte.to_N (list_byte_of_string "[object Object]"))
  = Rejected InvalidCharacterError.
Proof. reflexivity. Qed.

(** ** crypto-utils.js: key derivation *)

Section KeyDerivation.

Context {JN : JsNumber} {P : Platform}.

Local Open Scope N_scope.

Lemma importKey_PBKDF2_deriveKey (data : bytes) :
  subtle_importKey_PBKDF2 data false [usage_deriveKey]
  = Fulfilled {| key_kind := type_secret; key_algorithm := PBKDF2;
                 key_extractable := false;
                 key_usages := [usage_deriveKey];
                 key_data := data |}.
Proof. reflexivity. Qed.

Lemma importKey_PBKDF2_deriveBits (data : bytes) :
  subtle_importKey_PBKDF2 data false [usage_deriveBits]
  = Fulfilled {| key_kind := type_secret; key_algorithm := PBKDF2;
                 key_extractable := false;
                 key_usages := [usage_deriveBits];
                 key_data := data |}.
Proof. reflexivity. Qed.

(** An iteration count below 2^32 is taken as it is. *)
Lemma normalize_Pbkdf2Params_in_range (params : Pbkdf2Params) :
  pbkdf2_iterations params < 2 ^ 32 ->
  normalize_Pbkdf2Params params = Fulfilled params.
Proof.
  intros H. unfold normalize_Pbkdf2Params.
  apply N.leb_gt in H. now rewrite H.
Qed.

Lemma normalize_Pbkdf2Params_returns (params params' : Pbkdf2Params) :
  normalize_Pbkdf2Params params = Fulfilled params' ->
  params' = params /\ pbkdf2_iterations params < 2 ^ 32.
Proof.
  unfold normalize_Pbkdf2Params.
  destruct (2 ^ 32 <=? _) eqn:H; [discriminate|].
  intros [= <-]. split; [reflexivity|]. now apply N.leb_gt.
Qed.

(** A key [deriveKey] returns holds the PBKDF2 output of the derived
    type's length, whatever the derived type is. *)
Lemma deriveKey_key_data
    (params : Pbkdf2Params) (material : CryptoKey)
    (t : derived_key_type) (extractable : bool)
    (usages : list key_usage) (key : CryptoKey) :
  subtle_deriveKey params material t extractable usages = Fulfilled key ->
  exists length,
    get_key_length t = Fulfilled length
    /\ (pbkdf2_iterations params <> 0
        /\ pbkdf2_iterations params < 2 ^ 32)
    /\ key_data key
       = PBKDF2_HMAC_SHA256 (key_data material) (pbkdf2_salt params)
           (pbkdf2_iterations params) length.
Proof.
  unfold subtle_deriveKey.
  destruct (normalize_Pbkdf2Params params) as [params'|e] eqn:Hn;
    [|discriminate].
  apply normalize_Pbkdf2Params_returns in Hn. destruct Hn as [-> Hrange].
  cbn [bind].
  destruct (negb (algorithm_eqb _ _)); [discriminate|].
  destruct (negb (has_usage _ _)); [discriminate|].
  destruct (get_key_length t) as [len|e] eqn:Hlen; [|discriminate].
  cbn [bind]. unfold pbkdf2_derive_bits.
  destruct (negb (len mod 8 =? 0)); [discriminate|].
  destruct (pbkdf2_iterations params =? 0) eqn:Hit; [discriminate|].
  cbn [bind]. intros H. exists len. split; [reflexivity|].
  split; [split; [now apply N.eqb_neq|exact Hrange]|].
  unfold import_derived in H.
  destruct t;
    destruct (negb (usages_within usages _)); try discriminate;
    destruct (is_empty usages); try discriminate;
    injection H as <-; reflexivity.
Qed.

(** [pbkdf2Key] with its default usages returns a key whenever the
    iteration count is not zero and below 2^32. *)
Lemma pbkdf2Key_fulfilled
    (password : string) (salt : bytes) (iterations : option N) :
  default 150000 iterations <> 0 ->
  default 150000 iterations < 2 ^ 32 ->
  exists key, pbkdf2Key password salt iterations None = Fulfilled key.
Proof.
  intros Hit Hrange. unfold pbkdf2Key. cbv zeta.
  set (it := default 150000 iterations) in *. clearbody it.
  rewrite importKey_PBKDF2_deriveKey. cbn [bind].
  apply N.eqb_neq in Hit.
  unfold subtle_deriveKey.
  rewrite normalize_Pbkdf2Params_in_range by exact Hrange.
  unfold pbkdf2_derive_bits. cbn. rewrite Hit. cbn.
  eexists. reflexivity.
Qed.

(** C2, as the code has it: the verifier [pbkdf2Bits] returns is the key
    material of the encryption key [pbkdf2Key] returns for the same
    password, salt and iteration count. *)
Theorem pbkdf2Bits_is_key_material
    (password : string) (salt : bytes) (iterations : option N)
    (usage : option (list key_usage)) (key : CryptoKey) :
  pbkdf2Key password salt iterations usage = Fulfilled key ->
  pbkdf2Bits password salt iterations = Fulfilled (key_data key).
Proof.
  unfold pbkdf2Key, pbkdf2Bits. cbv zeta.
  set (it := default 150000 iterations). clearbody it.
  rewrite importKey_PBKDF2_deriveKey, importKey_PBKDF2_deriveBits.
  cbn [bind]. intros H.
  apply deriveKey_key_data in H.
  destruct H as [len [Hlen [[Hit Hrange] ->]]].
  cbn in Hlen. injection Hlen as <-.
  cbn [pbkdf2_iterations] in Hit, Hrange. apply N.eqb_neq in Hit.
  unfold subtle_deriveBits.
  rewrite normalize_Pbkdf2Params_in_range by exact Hrange.
  unfold pbkdf2_derive_bits. cbn. rewrite Hit.
  reflexivity.
Qed.

(** C3, as the code has it: the two keys [deriveEncAndMac] returns hold
    the same key material. *)
Theorem deriveEncAndMac_same_key_material
    (password : string) (salt : bytes) (iterations : option N)
    (keys : EncAndMac) :
  deriveEncAndMac password salt iterations = Fulfilled keys ->
  key_data (aesKey keys) = key_data (macKey keys).
Proof.
  unfold deriveEncAndMac. cbv zeta.
  set (it := default 150000 iterations). clearbody it.
  rewrite importKey_PBKDF2_deriveKey. cbn [bind].
  destruct (subtle_deriveKey _ _ (AesGcmKey 256) _ _) as [k1|e] eqn:H1;
    [|discriminate].
  cbn [bind].
  destruct (subtle_deriveKey _ _ (HmacKey 256) _ _) as [k2|e] eqn:H2;
    [|discriminate].
  cbn [bind]. intros [= <-]. cbn [aesKey macKey].
  apply deriveKey_key_data in H1. destruct H1 as [l1 [Hl1 [_ ->]]].
  apply deriveKey_key_data in H2. destruct H2 as [l2 [Hl2 [_ ->]]].
  cbn in Hl1, Hl2. injection Hl1 as <-. injection Hl2 as <-.
  reflexivity.
Qed.

(** [deriveEncAndMac] returns its two keys whenever the iteration count
    is not zero and below 2^32. *)
Lemma deriveEncAndMac_fulfilled
    (password : string) (salt : bytes) (iterations : option N) :
  default 150000 iterations <> 0 ->
  default 150000 iterations < 2 ^ 32 ->
  exists keys, deriveEncAndMac password salt iterations = Fulfilled keys.
Proof.
  intros Hit Hrange. unfold deriveEncAndMac. cbv zeta.
  set (it := default 150000 iterations) in *. clearbody it.
  rewrite importKey_PBKDF2_deriveKey. cbn [bind].
  apply N.eqb_neq in Hit.
  unfold subtle_deriveKey.
  rewrite normalize_Pbkdf2Params_in_range by exact Hrange.
  unfold pbkdf2_derive_bits. cbn. rewrite Hit. cbn.
  eexists. reflexivity.
Qed.

(** An iteration count of 2^32 or more is refused before anything is
    derived. *)
Lemma pbkdf2Key_iterations_out_of_range
    (password : string) (salt : bytes) (iterations : N)
    (usage : option (list key_usage)) :
  2 ^ 32 <= iterations ->
  pbkdf2Key password salt (Some iterations) usage = Rejected TypeError.
Proof.
  intros H. unfold pbkdf2Key. cbv zeta.
  rewrite importKey_PBKDF2_deriveKey. cbn [bind default].
  unfold subtle_deriveKey, normalize_Pbkdf2Params.
  cbn [pbkdf2_iterations]. apply N.leb_le in H. now rewrite H.
Qed.

End KeyDerivation.

(** The example scenario on the small platform: the verifier is the key
    material. *)
Lemma pbkdf2Bits_is_key_material_witness :
  pbkdf2Bits (P := checksum_platform) example_password example_salt None
  = Fulfilled
      (checksum_kdf (list_byte_of_string example_password) example_salt
         150000 256).
Proof.
  apply (pbkdf2Bits_is_key_material (P := checksum_platform)
           example_password example_salt None None
           {| key_kind := type_secret; key_algorithm := AES_GCM;
              key_extractable := false;
              key_usages := [usage_encrypt; usage_decrypt];
              key_data :=
                checksum_kdf (list_byte_of_string example_password)
                  example_salt 150000 256 |}).
  reflexivity.
Defined.

(** C2 as the spec states it fails: the verifier of the example scenario is
    not different from the key material of its encryption key. *)
Lemma verifier_not_independent :
  ~ (forall key verifier,
        pbkdf2Key (P := checksum_platform) example_password example_salt
          None None = Fulfilled key ->
        pbkdf2Bits (P := checksum_platform) example_password example_salt
          None = Fulfilled verifier ->
        verifier <> key_data key).
Proof.
  intros H.
  apply (H {| key_kind := type_secret; key_algorithm := AES_GCM;
              key_extractable := false;
              key_usages := [usage_encrypt; usage_decrypt];
              key_data :=
                checksum_kdf (list_byte_of_string example_password)
                  example_salt 150000 256 |}
           (checksum_kdf (list_byte_of_string example_password)
              example_salt 150000 256));
    reflexivity.
Qed.

(** The two keys of the example scenario on the small platform. *)
Lemma deriveEncAndMac_same_key_material_witness :
  exists keys,
    deriveEncAndMac (P := checksum_platform) example_password example_salt
      None = Fulfilled keys
    /\ key_data (aesKey keys) = key_data (macKey keys).
Proof.
  eexists. split; [reflexivity|].
  apply (deriveEncAndMac_same_key_material (P := checksum_platform)
           example_password example_salt None _).
  reflexivity.
Defined.

(** ** crypto-utils.js: the vault codec *)

Section VaultCodec.

Context {JN : JsNumber} {P : Platform}.

(** C1: [aesGcmEncryptJSON] reads [iv], which nothing declares, before it
    does anything else; where the global object has no such property the
    call throws and no vault is produced. *)
Theorem aesGcmEncryptJSON_throws (obj : json) (key : CryptoKey) :
  global_binding "iv" = None ->
  aesGcmEncryptJSON obj key = Rejected (ReferenceError "iv").
Proof.
  intros H. unfold aesGcmEncryptJSON, global_identifier. now rewrite H.
Qed.

(** Whatever the global object holds, the result of [aesGcmEncryptJSON]
    does not depend on the entries it is given. *)
Lemma aesGcmEncryptJSON_ignores_entries (obj obj' : json) (key : CryptoKey) :
  aesGcmEncryptJSON obj key = aesGcmEncryptJSON obj' key.
Proof. reflexivity. Qed.

Lemma randomBytes_12 (rs : random_source) :
  randomBytes 12 rs = (Fulfilled (draw 12 rs), advance 12 rs).
Proof. reflexivity. Qed.

Lemma draw_length (n : nat) (rs : random_source) :
  List.length (draw n rs) = n.
Proof. unfold draw. now rewrite length_map, length_seq. Qed.

(** One call of [aesGcmEncryptBytes]: the IV is the twelve bytes the
    generator hands out at the call, the ciphertext is the AES-GCM
    encryption of the data under the key and exactly that IV, and both are
    returned together.  Whether two calls get different IVs is the
    generator's matter: the function keeps no counter and no record of the
    IVs it used. *)
Lemma aesGcmEncryptBytes_fulfilled
    (data : bytes) (key : CryptoKey) (rs rs' : random_source)
    (v : EncryptedBytes) :
  aesGcmEncryptBytes data key rs = (Fulfilled v, rs') ->
  iv v = draw 12 rs
  /\ rs' = advance 12 rs
  /\ ciphertext v = AES_GCM_encrypt (key_data key) (iv v) data.
Proof.
  unfold aesGcmEncryptBytes. rewrite randomBytes_12.
  unfold subtle_encrypt_AES_GCM.
  destruct (negb (algorithm_eqb _ _)); [discriminate|].
  destruct (negb (has_usage _ _)); [discriminate|].
  cbn [bind]. intros [= <- <-]. cbn. repeat split.
Qed.

(** The byte-level round trip: what [aesGcmEncryptBytes] returns,
    [aesGcmDecryptBytes] decrypts to the same bytes, for a key with both
    usages and a cipher that decrypts what it encrypted. *)
Lemma aesGcmDecryptBytes_aesGcmEncryptBytes
    (data : bytes) (key : CryptoKey) (rs : random_source) :
  key_algorithm key = AES_GCM ->
  has_usage usage_encrypt key = true ->
  has_usage usage_decrypt key = true ->
  (16 <= List.length
           (AES_GCM_encrypt (key_data key) (draw 12 rs) data))%nat ->
  AES_GCM_decrypt (key_data key) (draw 12 rs)
    (AES_GCM_encrypt (key_data key) (draw 12 rs) data) = Some data ->
  exists v rs',
    aesGcmEncryptBytes data key rs = (Fulfilled v, rs')
    /\ aesGcmDecryptBytes (iv v) (ciphertext v) key = Fulfilled data.
Proof.
  intros Halg Henc Hdec Hlen Hrt.
  unfold aesGcmEncryptBytes, aesGcmDecryptBytes.
  rewrite randomBytes_12.
  unfold subtle_encrypt_AES_GCM, subtle_decrypt_AES_GCM.
  rewrite Halg, Henc, Hdec. cbn [algorithm_eqb negb bind].
  do 2 eexists. split; [reflexivity|]. cbn [iv ciphertext].
  apply Nat.ltb_ge in Hlen. rewrite Hlen, Hrt. reflexivity.
Qed.

(** C4, as the code has it: when the tag does not verify,
    [aesGcmDecryptBytes] returns no plaintext; the [OperationError] of
    [crypto.subtle.decrypt] leaves the function as it is thrown. *)
Theorem aesGcmDecryptBytes_tag_failure (iv ct : bytes) (key : CryptoKey) :
  key_algorithm key = AES_GCM ->
  has_usage usage_decrypt key = true ->
  AES_GCM_decrypt (key_data key) iv ct = None ->
  aesGcmDecryptBytes iv ct key = Rejected OperationError.
Proof.
  intros Halg Hdec Htag.
  unfold aesGcmDecryptBytes, subtle_decrypt_AES_GCM.
  rewrite Halg, Hdec, Htag. cbn [algorithm_eqb negb].
  destruct (_ <? _)%nat; reflexivity.
Qed.

Lemma advance_advance (m n : nat) (rs : random_source) :
  advance n (advance m rs) = advance (m + n) rs.
Proof. unfold advance. cbn. f_equal. lia. Qed.

(** [ecdsaVerify] hands its arguments to [crypto.subtle.verify] in that
    method's order (signature before data); for a public ECDSA key with
    the [verify] usage the promise is fulfilled with the verdict of the
    primitive. *)
Lemma ecdsaVerify_fulfilled
    (publicKey : CryptoKey) (dataBytes signature : bytes) :
  key_algorithm publicKey = ECDSA ->
  key_kind publicKey = type_public ->
  has_usage usage_verify publicKey = true ->
  ecdsaVerify publicKey dataBytes signature
  = Fulfilled (ECDSA_P256_SHA256_verify (key_data publicKey)
                 signature dataBytes).
Proof.
  intros Halg Hkind Huse. unfold ecdsaVerify, subtle_verify_ECDSA.
  now rewrite Halg, Hkind, Huse.
Qed.

End VaultCodec.

(** The empty entry list on the small platform: no vault comes back. *)
Lemma aesGcmEncryptJSON_throws_witness :
  aesGcmEncryptJSON (P := checksum_platform) (JArr []) example_key
  = Rejected (ReferenceError "iv").
Proof.
  apply (aesGcmEncryptJSON_throws (P := checksum_platform)
           (JArr []) example_key).
  reflexivity.
Defined.

(** The byte-level round trip on the small platform. *)
Example encrypt_then_decrypt :
  let r := aesGcmEncryptBytes (P := checksum_platform)
             [x01; x02; x03] example_key counting_source in
  match fst r with
  | Fulfilled v =>
      aesGcmDecryptBytes (P := checksum_platform)
        (iv v) (ciphertext v) example_key
  | Rejected e => Rejected e
  end = Fulfilled [x01; x02; x03].
Proof. vm_compute. reflexivity. Qed.

(** A vault whose tag does not verify under the example key. *)
Lemma aesGcmDecryptBytes_tag_failure_witness :
  aesGcmDecryptBytes (P := checksum_platform)
    tampered_iv tampered_ciphertext example_key
  = Rejected OperationError.
Proof.
  apply (aesGcmDecryptBytes_tag_failure (P := checksum_platform)
           tampered_iv tampered_ciphertext example_key);
    reflexivity.
Defined.

(** C4 as the spec states it fails: on a vault whose tag does not verify
    the call ends in a thrown exception, not in a returned condition. *)
Lemma aesGcmDecryptBytes_throws :
  AES_GCM_decrypt (Platform := checksum_platform)
    (key_data example_key) tampered_iv tampered_ciphertext = None
  /\ is_rejected
       (aesGcmDecryptBytes (P := checksum_platform)
          tampered_iv tampered_ciphertext example_key) = true.
Proof. split; reflexivity. Qed.

(** ** pm-server/server.js *)

Section JsonFacts.

Context {JN : JsNumber}.

(** Induction on a JSON value and the values it holds. *)
Lemma json_induction (Q : json -> Prop) :
  Q JNull ->
  (forall b, Q (JBool b)) ->
  (forall n, Q (JNum n)) ->
  (forall s, Q (JStr s)) ->
  (forall elements, Forall Q elements -> Q (JArr elements)) ->
  (forall properties,
      Forall (fun kv => Q (snd kv)) properties -> Q (JObj properties)) ->
  forall v, Q v.
Proof.
  intros HNull HBool HNum HStr HArr HObj.
  fix IH 1. intros [| b | n | s | elements | properties].
  - exact HNull.
  - apply HBool.
  - apply HNum.
  - apply HStr.
  - apply HArr. induction elements as [|x l IHl]; constructor.
    + apply IH.
    + exact IHl.
  - apply HObj. induction properties as [|[k x] l IHl]; constructor.
    + apply IH.
    + exact IHl.
Qed.

Lemma json_written_JObj (properties : object) :
  json_written (JObj properties) = JObj (written_properties properties).
Proof. reflexivity. Qed.

(** What [JSON.stringify] wrote is written as it is when it is read and
    written again. *)
Lemma json_written_again (v : json) :
  json_written (json_written v) = json_written v.
Proof.
  induction v as [| b | n | s | elements IH | properties IH]
    using json_induction; try reflexivity.
  - cbn. destruct (number_written n) as [n'|] eqn:E; cbn.
    + now rewrite (number_written_again n n' E).
    + reflexivity.
  - cbn. f_equal. induction IH as [|x l Hx _ IHl]; [reflexivity|].
    cbn. now rewrite Hx, IHl.
  - cbn. f_equal. induction IH as [|[k x] l Hx _ IHl]; [reflexivity|].
    cbn in Hx |- *. now rewrite Hx, IHl.
Qed.

Lemma written_properties_again (properties : object) :
  written_properties (written_properties properties)
  = written_properties properties.
Proof.
  pose proof (json_written_again (JObj properties)) as H.
  rewrite !json_written_JObj in H. now injection H.
Qed.

Lemma get_own_written_properties (k : string) (o : object) :
  get_own k (written_properties o) = option_map json_written (get_own k o).
Proof.
  induction o as [|[k' v'] o IH]; [reflexivity|]. cbn.
  destruct (String.eqb k k'); [reflexivity|exact IH].
Qed.

Lemma written_properties_set_own (k : string) (v : json) (o : object) :
  written_properties (set_own k v o)
  = set_own k (json_written v) (written_properties o).
Proof.
  induction o as [|[k' v'] o IH]; [reflexivity|]. cbn.
  destruct (String.eqb k k'); cbn; [reflexivity|]. f_equal. exact IH.
Qed.

Lemma written_properties_remove_own (k : string) (o : object) :
  written_properties (remove_own k o)
  = remove_own k (written_properties o).
Proof.
  unfold remove_own.
  induction o as [|[k' v'] o IH]; [reflexivity|]. cbn.
  destruct (String.eqb k k'); cbn; [exact IH|]. f_equal. exact IH.
Qed.

(** Strings, booleans and [null] are written as they are. *)
Lemma json_written_JStr (s : string) : json_written (JStr s) = JStr s.
Proof. reflexivity. Qed.

End JsonFacts.

Section ServerFacts.

Context {JN : JsNumber}.

Lemma get_own_set_own (k : string) (v : json) (o : object) :
  get_own k (set_own k v o) = Some v.
Proof.
  induction o as [|[k' v'] o IH]; cbn.
  - now rewrite String.eqb_refl.
  - destruct (String.eqb k k') eqn:E; cbn.
    + now rewrite String.eqb_refl.
    + now rewrite E.
Qed.

Lemma get_own_set_own_other (k k' : string) (v : json) (o : object) :
  k' <> k -> get_own k' (set_own k v o) = get_own k' o.
Proof.
  intros Hk. apply String.eqb_neq in Hk.
  induction o as [|[k0 v0] o IH]; cbn.
  - now rewrite Hk.
  - destruct (String.eqb k k0) eqn:E; cbn.
    + apply String.eqb_eq in E. subst k0. now rewrite Hk.
    + now rewrite IH.
Qed.

(** A property the body has is what destructuring binds. *)
Lemma destructure_own (st : process) (body : object) (k : string)
      (v : json) :
  get_own k body = Some v -> destructure st body k = Value v.
Proof. intros H. unfold destructure, get_property. now rewrite H. Qed.

(** What [written] writes, it writes as it will be read. *)
Lemma written_as_written (k : string) (x : variable) (o o' : object) :
  written k x o = Fulfilled o' ->
  written_properties o = o ->
  written_properties o' = o'.
Proof.
  unfold written. intros H Ho.
  destruct (stringify x) as [[v|]|] eqn:Hx; cbn [bind] in H;
    [| |discriminate]; injection H as <-.
  - rewrite written_properties_set_own, Ho. f_equal.
    destruct x as [w|[w|properties]|]; cbn in Hx; try discriminate;
      injection Hx as <-; apply json_written_again.
  - now rewrite written_properties_remove_own, Ho.
Qed.

(** Every request leaves in [users.json] what [JSON.stringify] wrote:
    values that are read and written again as they are. *)
Lemma handle_file_as_written (r : request) (st : process) :
  file_as_written st -> file_as_written (snd (handle r st)).
Proof.
  intros Hst.
  assert (Hset : forall key value,
             json_written value = value ->
             file_as_written
               (saveUsers (set_own key value (users_json st)) st)).
  { intros key value Hv k v. cbn [saveUsers users_json].
    destruct (String.eqb k key) eqn:E.
    - apply String.eqb_eq in E. subst k. rewrite get_own_set_own.
      now intros [= <-].
    - apply String.eqb_neq in E. rewrite get_own_set_own_other by exact E.
      apply Hst. }
  destruct r as [body|body|body|route]; cbn [handle]; [| | |exact Hst].
  - unfold post_register.
    destruct (_ || _)%bool; [exact Hst|].
    destruct (property_key _); [|exact Hst].
    destruct (property_truthy _); [exact Hst|].
    destruct (written "salt" _ _) as [r1|] eqn:H1; [|exact Hst].
    cbn [bind].
    destruct (written "verifier" _ _) as [r2|] eqn:H2; [|exact Hst].
    cbn [bind].
    destruct (written "vault" _ _) as [r3|] eqn:H3; [|exact Hst].
    cbn [snd]. apply Hset. rewrite json_written_JObj. f_equal.
    apply (written_as_written _ _ _ _ H3).
    apply (written_as_written _ _ _ _ H2).
    apply (written_as_written _ _ _ _ H1). reflexivity.
  - unfold post_login.
    destruct (falsy _); [exact Hst|].
    destruct (property_key _); [|exact Hst].
    destruct (negb _); exact Hst.
  - unfold post_updateVault.
    destruct (_ || _)%bool; [exact Hst|].
    destruct (property_key _) as [key|]; [|exact Hst].
    destruct (negb _); [exact Hst|].
    unfold get_property, loadUsers.
    destruct (get_own key (users_json st)) as [value|] eqn:Hrec.
    + pose proof (Hst key value Hrec) as Hv.
      destruct (assign_vault value _) as [value'|] eqn:Ha; [|exact Hst].
      cbn [snd]. apply Hset.
      destruct value as [| b | n | s | elements | properties];
        cbn [assign_vault] in Ha; try discriminate.
      * injection Ha as <-. exact Hv.
      * destruct (written _ _ properties) as [properties'|] eqn:Hw;
          [|discriminate].
        cbn [bind] in Ha. injection Ha as <-.
        rewrite json_written_JObj in Hv |- *. injection Hv as Hv.
        f_equal. now apply (written_as_written _ _ _ _ Hw).
    + destruct (String.eqb key "__proto__"); [exact Hst|].
      destruct (existsb _ _); [exact Hst|].
      destruct (String.eqb key "vault"); [|exact Hst].
      destruct (prototype_vault st); [|exact Hst].
      destruct (assign_shared_vault _ _); exact Hst.
Qed.

(** C8: a request that is answered with status 400, 404 or 409 leaves
    the process, and in it the content of [users.json], as it was. *)
Theorem error_response_writes_nothing
    (r : request) (st st' : process) (resp : response) :
  handle r st = (Fulfilled resp, st') ->
  status resp = 400%N \/ status resp = 404%N \/ status resp = 409%N ->
  users_json st' = users_json st /\ st' = st.
Proof.
  intros H Hs.
  assert (Hok : status resp = 200%N -> st' = st).
  { intros E. rewrite E in Hs. destruct Hs as [?|[?|?]]; discriminate. }
  enough (st' = st) by (subst; split; reflexivity).
  destruct r as [body|body|body|route]; cbn [handle] in H;
    [| | |discriminate].
  - unfold post_register in H.
    destruct (_ || _)%bool; [now injection H as _ <-|].
    destruct (property_key _); [|discriminate].
    destruct (property_truthy _); [now injection H as _ <-|].
    destruct (bind _ _); [|discriminate].
    injection H as <- <-. now apply Hok.
  - unfold post_login in H.
    destruct (falsy _); [now injection H as _ <-|].
    destruct (property_key _); [|discriminate].
    destruct (negb _); now injection H as _ <-.
  - unfold post_updateVault in H.
    destruct (_ || _)%bool; [now injection H as _ <-|].
    destruct (property_key _); [|discriminate].
    destruct (negb _); [now injection H as _ <-|].
    destruct (get_property _ _ _).
    + destruct (assign_vault _ _); [|discriminate].
      injection H as <- <-. now apply Hok.
    + destruct (assign_shared_vault _ _); [|discriminate].
      injection H as <- <-. now apply Hok.
    + injection H as <- <-. now apply Hok.
    + injection H as <- <-. now apply Hok.
    + injection H as <- <-. now apply Hok.
Qed.


(** [/register] in a process whose [Object.prototype] has no [vault]: a
    body without one of the four properties is answered with 400. *)
Lemma register_missing_field
    (st : process) (body : object) (field : string) :
  prototype_vault st = None ->
  In field ["username"; "salt"; "verifier"; "vault"]%string ->
  get_own field body = None ->
  post_register body st
  = (Fulfilled (error_response 400 "Missing fields"), st).
Proof.
  intros Hp Hin Hf. unfold post_register.
  assert (Hd : falsy (destructure st body field) = true).
  { unfold destructure, get_property. rewrite Hf, Hp.
    cbn in Hin. destruct Hin as [<-|[<-|[<-|[<-|[]]]]]; reflexivity. }
  cbn in Hin. destruct Hin as [<-|[<-|[<-|[<-|[]]]]];
    rewrite Hd, ?orb_true_r; reflexivity.
Qed.

(** [/register] for a username that has a record is answered with 409. *)
Lemma register_existing_user
    (st : process) (body : object) (u salt verifier vault : json)
    (key : string) (record : object) :
  get_own "username" body = Some u -> truthy u = true ->
  get_own "salt" body = Some salt -> truthy salt = true ->
  get_own "verifier" body = Some verifier -> truthy verifier = true ->
  get_own "vault" body = Some vault -> truthy vault = true ->
  to_string u = Fulfilled key ->
  get_own key (users_json st) = Some (JObj record) ->
  post_register body st
  = (Fulfilled (error_response 409 "User exists"), st).
Proof.
  intros Hu Htu Hs Hts Hv Htv Hvt Htvt Hkey Hrec. unfold post_register.
  rewrite (destructure_own st body "username" u Hu),
          (destructure_own st body "salt" salt Hs),
          (destructure_own st body "verifier" verifier Hv),
          (destructure_own st body "vault" vault Hvt).
  cbn [falsy property_key]. rewrite Htu, Hts, Htv, Htvt, Hkey.
  cbn [negb orb]. unfold loadUsers, get_property. rewrite Hrec.
  reflexivity.
Qed.

(** [/register] in a process whose [Object.prototype] has no [vault],
    on a [users.json] as the server wrote it, stores a record only for a
    body that has all four properties, under a username that had no
    record; the record holds the salt, the verifier and the vault of the
    body as [JSON.stringify] wrote them, and the file is again as the
    server writes it. *)
Lemma register_stores_only_complete
    (st st' : process) (body : object) :
  file_as_written st ->
  prototype_vault st = None ->
  post_register body st = (Fulfilled ok_response, st') ->
  exists u salt verifier vault key,
    get_own "username" body = Some u
    /\ get_own "salt" body = Some salt
    /\ get_own "verifier" body = Some verifier
    /\ get_own "vault" body = Some vault
    /\ to_string u = Fulfilled key
    /\ (forall record, get_own key (users_json st) <> Some (JObj record))
    /\ users_json st'
       = set_own key
           (JObj [("salt", json_written salt);
                  ("verifier", json_written verifier);
                  ("vault", json_written vault)]%string)
           (users_json st)
    /\ file_as_written st'.
Proof.
  intros Hst Hp H.
  assert (Hw : file_as_written st').
  { pose proof (handle_file_as_written (Register body) st Hst) as Hw.
    cbn [handle] in Hw. now rewrite H in Hw. }
  unfold post_register in H.
  assert (Hd : forall k, k <> "__proto__"%string ->
              existsb (String.eqb k) Object_prototype_methods = false ->
              destructure st body k
              = match get_own k body with
                | Some v => Value v
                | None => Missing
                end).
  { intros k H1 H2. unfold destructure, get_property.
    destruct (get_own k body); [reflexivity|].
    apply String.eqb_neq in H1. rewrite H1, H2, Hp.
    destruct (String.eqb k "vault"); reflexivity. }
  rewrite !Hd in H by (reflexivity || discriminate).
  destruct (get_own "username" body) as [u|]; [|discriminate].
  destruct (get_own "salt" body) as [salt|];
    [|cbn in H; rewrite ?orb_true_r in H; discriminate].
  destruct (get_own "verifier" body) as [verifier|];
    [|cbn in H; rewrite ?orb_true_r in H; discriminate].
  destruct (get_own "vault" body) as [vault|];
    [|cbn in H; rewrite ?orb_true_r in H; discriminate].
  destruct (_ || _)%bool; [discriminate|].
  cbn [property_key] in H.
  destruct (to_string u) as [key|] eqn:Hk; [|discriminate].
  destruct (property_truthy _) eqn:Ht; [discriminate|].
  cbn in H. injection H as <-.
  exists u, salt, verifier, vault, key.
  repeat split; try reflexivity; try assumption.
  intros record Hrec. unfold loadUsers, get_property in Ht.
  rewrite Hrec in Ht. discriminate.
Qed.




(** The handlers of the copy answer as those of server.js do, except where
    server.js throws. *)
Lemma try_catch_fulfilled
    (r : outcome response * process) (resp : response) (st : process) :
  r = (Fulfilled resp, st) -> try_catch r = (Fulfilled resp, st).
Proof. now intros ->. Qed.

Lemma try_catch_rejected
    (r : outcome response * process) (e : exn) (st : process) :
  r = (Rejected e, st) ->
  try_catch r = (Fulfilled (error_response 500 "Server error"), st).
Proof. now intros ->. Qed.

End ServerFacts.

(** The API on a fresh server: a registration, the same registration
    again, a login, and requests that name properties every object
    inherits. *)
Example register_then_login :
  handle register_alice initDB = (Fulfilled ok_response, alice_registered)
  /\ handle register_alice alice_registered
     = (Fulfilled (error_response 409 "User exists"), alice_registered)
  /\ handle login_bob alice_registered
     = (Fulfilled (error_response 404 "No such user"), alice_registered)
  /\ fst (handle (Login [("username", JStr "alice")]%string)
            alice_registered)
     = Fulfilled {| status := 200;
                    sent := get_own "alice" (users_json alice_registered) |}.
Proof. repeat split. Qed.

Example register_inherited_name :
  handle (Register [("username", JStr "constructor");
                    ("salt", JStr "cw==");
                    ("verifier", JStr "dg==");
                    ("vault", example_vault)]%string) initDB
  = (Fulfilled (error_response 409 "User exists"), initDB).
Proof. reflexivity. Qed.

Example updateVault_inherited_method :
  handle (UpdateVault [("username", JStr "toString");
                       ("vault", example_vault)]%string) alice_registered
  = (Fulfilled ok_response, alice_registered).
Proof. reflexivity. Qed.

(** A record that is not an object: server.js throws, the copy answers
    500. *)
Example updateVault_string_record :
  post_updateVault update_mallory string_record
  = (Rejected TypeError, string_record)
  /\ copy_post_updateVault update_mallory string_record
     = (Fulfilled (error_response 500 "Server error"), string_record).
Proof. split; reflexivity. Qed.

(** C7 fails on a server that has answered [/updateVault] for the username
    [__proto__]: the vault of that request has become a property of
    [Object.prototype], every later body inherits it, and [/register]
    accepts a body with no [vault], storing the inherited one. *)
Theorem register_accepts_missing_vault :
  let st := serve [update_proto] initDB in
  handle update_proto initDB = (Fulfilled ok_response, st)
  /\ users_json st = []
  /\ handle register_bob_without_vault st
     = (Fulfilled ok_response,
        {| users_json :=
             [("bob",
               JObj [("salt", JStr "c2FsdHNhbHRzYWx0c2FsdA==");
                     ("verifier", JStr "dmVyaWZpZXI=");
                     ("vault", example_vault)])]%string;
           prototype_vault := Some (Acyclic example_vault) |}).
Proof. repeat split. Qed.

(** [/login] for a username that is not registered. *)
Lemma error_response_writes_nothing_witness :
  users_json (snd (handle login_bob alice_registered))
  = users_json alice_registered
  /\ snd (handle login_bob alice_registered) = alice_registered.
Proof.
  apply (error_response_writes_nothing login_bob alice_registered
           (snd (handle login_bob alice_registered))
           (error_response 404 "No such user")).
  - reflexivity.
  - right. left. reflexivity.
Defined.



(* ===================================================================== *)
(** * Part III: further properties of the code                            *)
(* ===================================================================== *)

(** ** More on [b64] and [ub64] *)

Section Base64More.

Context {E : Engine}.

Import Base64.
Local Open Scope N_scope.

Lemma char_sextet_of_sextet_char (n : N) :
  exists m, char_sextet (sextet_char n) = Some m.
Proof.
  destruct (N.lt_ge_cases n 64) as [H|H].
  - exists n. now apply char_sextet_sextet_char.
  - exists 63. unfold sextet_char.
    destruct (n <? 26) eqn:E1; [apply N.ltb_lt in E1; lia|].
    destruct (n <? 52) eqn:E2; [apply N.ltb_lt in E2; lia|].
    destruct (n <? 62) eqn:E3; [apply N.ltb_lt in E3; lia|].
    destruct (n =? 62) eqn:E4; [apply N.eqb_eq in E4; lia|].
    reflexivity.
Qed.

Lemma base64_character_sextet_char (n : N) :
  base64_character (sextet_char n).
Proof.
  left. destruct (char_sextet_of_sextet_char n) as [m ->]. discriminate.
Qed.

Lemma encode_characters (l : list N) : Forall base64_character (encode l).
Proof.
  induction l as [| a | a b | a b c r IH] using list_ind3; cbn [encode];
    repeat first
      [ apply Forall_nil
      | apply Forall_cons;
        [first [apply base64_character_sextet_char | right; reflexivity]|] ].
  exact IH.
Qed.

Lemma encode_length_exact (l : list N) :
  List.length (encode l) = (4 * ((List.length l + 2) / 3))%nat.
Proof.
  induction l as [| a | a b | a b c r IH] using list_ind3;
    try reflexivity.
  cbn [encode List.length]. rewrite IH.
  replace (S (S (S (List.length r))) + 2)%nat
    with (List.length r + 2 + 1 * 3)%nat by lia.
  rewrite Nat.div_add by discriminate. lia.
Qed.

(** [b64] on an array with more bytes than a call takes arguments throws
    a [RangeError]; on every other array it returns four characters for
    every three bytes begun, each of them a letter, a digit, [+], [/] or
    [=]. *)
Theorem b64_shape (u : bytes) :
  if max_arguments <? N.of_nat (List.length u)
  then b64 u = Rejected RangeError
  else
    exists s,
      b64 u = Fulfilled s
      /\ List.length s = (4 * ((List.length u + 2) / 3))%nat
      /\ Forall base64_character s.
Proof.
  destruct (max_arguments <? _) eqn:H.
  - apply b64_too_long. now apply N.ltb_lt.
  - exists (encode (char_codes u)).
    split; [apply b64_fulfilled; now apply N.ltb_ge|].
    split.
    + rewrite encode_length_exact. unfold char_codes.
      now rewrite length_map.
    + apply encode_characters.
Qed.

(** Different byte arrays have different encodings: two arrays that [b64]
    encodes to the same string are the same array. *)
Theorem b64_injective (u1 u2 : bytes) (s : jsstring) :
  b64 u1 = Fulfilled s -> b64 u2 = Fulfilled s -> u1 = u2.
Proof.
  intros H1 H2.
  apply b64_returns in H1. destruct H1 as [_ H1].
  apply b64_returns in H2. destruct H2 as [_ H2].
  pose proof (atob_btoa _ _ (btoa_char_codes u1)) as A1.
  pose proof (atob_btoa _ _ (btoa_char_codes u2)) as A2.
  rewrite <- H1 in A1. rewrite <- H2, A1 in A2. injection A2 as A2.
  rewrite <- (Uint8Array_of_char_codes u1),
          <- (Uint8Array_of_char_codes u2).
  now rewrite A2.
Qed.

Lemma In_strip_trailing_pad (c : N) (d : list N) :
  In c d -> c <> pad -> In c (strip_trailing_pad d).
Proof.
  intros Hin Hc. apply N.eqb_neq in Hc.
  induction d as [|x d IH]; [contradiction|].
  destruct d as [|y d'].
  - destruct Hin as [->|[]]. cbn. rewrite Hc. now left.
  - destruct d' as [|z r].
    + cbn [strip_trailing_pad].
      destruct Hin as [->|[->|[]]].
      * rewrite Hc. destruct (y =? pad); now left.
      * rewrite Hc. right. now left.
    + change (strip_trailing_pad (x :: y :: z :: r))
        with (x :: strip_trailing_pad (y :: z :: r)).
      destruct Hin as [->|Hin]; [now left|]. right. now apply IH.
Qed.

Lemma sextets_invalid (c : N) (d : list N) :
  In c d -> char_sextet c = None -> sextets d = None.
Proof.
  intros Hin Hc. induction d as [|x d IH]; [contradiction|].
  cbn [sextets]. destruct Hin as [->|Hin].
  - now rewrite Hc.
  - rewrite (IH Hin). now destruct (char_sextet x).
Qed.

(** [ub64] throws [InvalidCharacterError] on every string that holds a
    character which is neither of the alphabet, nor [=], nor white
    space. *)
Theorem ub64_invalid_character (s : jsstring) (c : N) :
  In c s ->
  char_sextet c = None ->
  c <> pad ->
  is_ascii_whitespace c = false ->
  ub64 s = Rejected InvalidCharacterError.
Proof.
  intros Hin Hc Hp Hw. unfold ub64, atob, forgiving_decode.
  set (d := filter _ s).
  assert (Hd : In c d).
  { apply filter_In. split; [exact Hin|]. now rewrite Hw. }
  assert (Hs : In c (strip_padding d)).
  { unfold strip_padding. destruct (_ =? _)%nat; [|exact Hd].
    now apply In_strip_trailing_pad. }
  now rewrite (sextets_invalid c _ Hs Hc).
Qed.

Lemma filter_comm (A : Type) (f g : A -> bool) (l : list A) :
  filter f (filter g l) = filter g (filter f l).
Proof.
  induction l as [|x l IH]; [reflexivity|]. cbn.
  destruct (g x) eqn:Eg, (f x) eqn:Ef; cbn; rewrite ?Eg, ?Ef, IH;
    reflexivity.
Qed.

Lemma strip_trailing_pad_without_pad (d : list N) :
  Forall (fun c => (c =? pad) = false) d -> strip_trailing_pad d = d.
Proof.
  induction d as [|x d IH]; [reflexivity|]. intros H.
  inversion H as [|? ? Hx Hd]; subst.
  destruct d as [|y d']; [cbn; now rewrite Hx|].
  destruct d' as [|z r].
  - inversion Hd as [|? ? Hy _]; subst. cbn. now rewrite Hy.
  - change (strip_trailing_pad (x :: y :: z :: r))
      with (x :: strip_trailing_pad (y :: z :: r)).
    now rewrite (IH Hd).
Qed.

Lemma filter_pad_encode (l : list N) :
  filter (fun c => negb (c =? pad)) (encode l)
  = strip_trailing_pad (encode l).
Proof.
  induction l as [| a | a b | a b c r IH] using list_ind3.
  - reflexivity.
  - cbn [encode filter strip_trailing_pad].
    rewrite !sextet_char_not_pad. reflexivity.
  - cbn [encode filter strip_trailing_pad].
    rewrite !sextet_char_not_pad. reflexivity.
  - cbn [encode]. rewrite strip_trailing_pad_group. cbn [filter].
    rewrite !sextet_char_not_pad. cbn [negb]. now rewrite IH.
Qed.

(** [ub64] also reads an encoding whose padding has been left out. *)
Theorem ub64_unpadded (u : bytes) (s : jsstring) :
  b64 u = Fulfilled s ->
  ub64 (filter (fun c => negb (c =? pad)) s) = Fulfilled u.
Proof.
  intros Hs. apply b64_returns in Hs. destruct Hs as [_ ->].
  set (l := char_codes u).
  assert (Hl : Forall (fun a => a < 256) l).
  { apply Forall_forall. intros c Hc.
    pose proof (char_codes_latin1 u) as H.
    rewrite forallb_forall in H. specialize (H c Hc).
    apply N.leb_le in H. lia. }
  set (body := filter (fun c => negb (c =? pad)) (encode l)).
  assert (Hnp : Forall (fun c => (c =? pad) = false) body).
  { apply Forall_forall. intros c Hc. apply filter_In in Hc.
    destruct Hc as [_ Hc]. now apply negb_true_iff in Hc. }
  assert (Hws : filter (fun c => negb (is_ascii_whitespace c)) body = body).
  { unfold body. rewrite filter_comm. now rewrite encode_no_whitespace. }
  assert (Hsp : strip_padding body = body).
  { unfold strip_padding. destruct (_ =? _)%nat; [|reflexivity].
    now apply strip_trailing_pad_without_pad. }
  unfold ub64, atob, forgiving_decode. rewrite Hws, Hsp.
  unfold body. rewrite filter_pad_encode.
  destruct (decode_groups_encode l Hl) as [ns [-> ->]]. cbn [bind].
  unfold l. now rewrite Uint8Array_of_char_codes.
Qed.

End Base64More.

(** The encoding ["AQI="] belongs to one array only. *)
Lemma b64_injective_witness : [x01; x02] = [x01; x02].
Proof.
  apply (b64_injective (E := small_engine) [x01; x02] [x01; x02]
           [65; 81; 73; 61]%N);
    reflexivity.
Defined.

(** A JSON text is not base64. *)
Lemma ub64_invalid_character_witness :
  ub64 [123; 34; 105; 118; 34; 125]%N = Rejected InvalidCharacterError.
Proof.
  apply (ub64_invalid_character [123; 34; 105; 118; 34; 125]%N 123%N).
  - left. reflexivity.
  - reflexivity.
  - discriminate.
  - reflexivity.
Defined.

(** ["Zm8="] without its padding. *)
Lemma ub64_unpadded_witness :
  ub64 (filter (fun c => negb (c =? Base64.pad)%N) [90; 109; 56; 61]%N)
  = Fulfilled (list_byte_of_string "fo").
Proof.
  apply (ub64_unpadded (E := small_engine)
           (list_byte_of_string "fo") [90; 109; 56; 61]%N).
  reflexivity.
Defined.

(** ** [concatBytes] *)

Lemma fold_left_lengths (arrs : list bytes) (n : nat) :
  fold_left (fun a b => a + List.length b) arrs n
  = n + List.length (List.concat arrs).
Proof.
  revert n. induction arrs as [|a rest IH]; intros n; cbn.
  - lia.
  - rewrite IH, length_app. lia.
Qed.

(** The loop of [concatBytes]: with [done] written and the rest of the
    buffer still zero, it writes the remaining arrays one after the other
    and never leaves the buffer. *)
Lemma concatBytes_loop_invariant (arrs : list bytes) (done : bytes) :
  concatBytes_loop arrs
    (done ++ repeat x00 (List.length (List.concat arrs))) (List.length done)
  = Returned (done ++ List.concat arrs).
Proof.
  revert done. induction arrs as [|a rest IH]; intros done.
  - reflexivity.
  - cbn [concatBytes_loop List.concat]. unfold Uint8Array_set.
    rewrite !length_app, repeat_length.
    replace (_ <? _)%nat with false
      by (symmetry; apply Nat.ltb_ge; lia).
    rewrite firstn_app, firstn_all, Nat.sub_diag, firstn_O, app_nil_r.
    rewrite skipn_app, skipn_all2 by lia.
    replace (List.length done + List.length a - List.length done)%nat
      with (List.length a) by lia.
    rewrite repeat_app, skipn_app, repeat_length, Nat.sub_diag, skipn_O.
    rewrite skipn_all2 by (rewrite repeat_length; lia).
    cbn [app]. rewrite <- length_app.
    rewrite (app_assoc done a (repeat x00 _)), IH.
    now rewrite app_assoc.
Qed.

(** [concatBytes] returns its arguments one after the other, in the order
    given, and never throws. *)
Theorem concatBytes_concat (arrs : list bytes) :
  concatBytes arrs = Returned (List.concat arrs).
Proof.
  unfold concatBytes, Uint8Array_new. rewrite fold_left_lengths.
  apply (concatBytes_loop_invariant arrs []).
Qed.

(** ** Keys: derivation, export and import *)

Lemma bytes_eqb_eq (a b : bytes) : bytes_eqb a b = true <-> a = b.
Proof.
  revert b. induction a as [|x a IH]; intros [|y b]; cbn;
    try (split; [discriminate|discriminate]); try tauto.
  rewrite andb_true_iff, IH. split.
  - intros [Hxy ->]. apply Byte.byte_dec_bl in Hxy. now subst.
  - intros [= -> ->]. split; [now apply Byte.byte_dec_lb|reflexivity].
Qed.

Lemma bytes_eqb_neq (a b : bytes) : a <> b -> bytes_eqb a b = false.
Proof.
  intros H. destruct (bytes_eqb a b) eqn:E; [|reflexivity].
  apply bytes_eqb_eq in E. contradiction.
Qed.

Section KeyFacts.

Context {JN : JsNumber} {P : Platform} {K : KeyPrimitives}.

Local Open Scope N_scope.

(** The attributes of a key [deriveKey] returns are those asked for. *)
Lemma deriveKey_attributes
    (params : Pbkdf2Params) (material : CryptoKey)
    (t : derived_key_type) (extractable : bool)
    (usages : list key_usage) (key : CryptoKey) :
  subtle_deriveKey params material t extractable usages = Fulfilled key ->
  key_extractable key = extractable
  /\ key_usages key = usages
  /\ key_kind key = type_secret
  /\ key_algorithm key
     = match t with AesGcmKey _ => AES_GCM | HmacKey _ => HMAC end.
Proof.
  unfold subtle_deriveKey.
  destruct (normalize_Pbkdf2Params params); [|discriminate]. cbn [bind].
  destruct (negb (algorithm_eqb _ _)); [discriminate|].
  destruct (negb (has_usage _ _)); [discriminate|].
  destruct (get_key_length t); [|discriminate]. cbn [bind].
  destruct (pbkdf2_derive_bits _ _ _); [|discriminate]. cbn [bind].
  unfold import_derived.
  destruct t;
    destruct (negb (usages_within usages _)); try discriminate;
    destruct (is_empty usages); try discriminate;
    intros [= <-]; repeat split.
Qed.

Lemma deriveEncAndMac_attributes
    (password : string) (salt : bytes) (iterations : option N)
    (keys : EncAndMac) :
  deriveEncAndMac password salt iterations = Fulfilled keys ->
  (key_algorithm (aesKey keys) = AES_GCM
   /\ key_usages (aesKey keys) = [usage_encrypt; usage_decrypt]
   /\ key_extractable (aesKey keys) = false)
  /\ (key_algorithm (macKey keys) = HMAC
      /\ key_usages (macKey keys) = [usage_sign; usage_verify]
      /\ key_extractable (macKey keys) = false).
Proof.
  unfold deriveEncAndMac. cbv zeta.
  destruct (subtle_importKey_PBKDF2 _ _ _) as [material|]; [|discriminate].
  cbn [bind].
  destruct (subtle_deriveKey _ _ (AesGcmKey 256) _ _) as [k1|] eqn:H1;
    [|discriminate].
  cbn [bind].
  destruct (subtle_deriveKey _ _ (HmacKey 256) _ _) as [k2|] eqn:H2;
    [|discriminate].
  cbn [bind]. intros [= <-]. cbn [aesKey macKey].
  apply deriveKey_attributes in H1. apply deriveKey_attributes in H2.
  tauto.
Qed.

(** An iteration count of zero is passed on as it is, and the derivation
    fails: no key and no verifier. *)
Theorem zero_iterations_rejected
    (password : string) (salt : bytes)
    (usage : option (list key_usage)) :
  pbkdf2Key password salt (Some 0) usage = Rejected OperationError
  /\ pbkdf2Bits password salt (Some 0) = Rejected OperationError
  /\ deriveEncAndMac password salt (Some 0) = Rejected OperationError.
Proof. repeat split. Qed.

(** A key [pbkdf2Key] returns is not extractable: [exportRawKey] on it
    throws [InvalidAccessError]. *)
Theorem pbkdf2Key_not_exportable
    (password : string) (salt : bytes) (iterations : option N)
    (usage : option (list key_usage)) (key : CryptoKey) :
  pbkdf2Key password salt iterations usage = Fulfilled key ->
  exportRawKey key = Thrown (Exception InvalidAccessError).
Proof.
  unfold pbkdf2Key. cbv zeta.
  destruct (subtle_importKey_PBKDF2 _ _ _) as [material|]; [|discriminate].
  cbn [bind]. intros H. apply deriveKey_attributes in H.
  destruct H as [He [_ [_ Ha]]].
  unfold exportRawKey, subtle_exportKey. now rewrite Ha, He.
Qed.

(** Nor are the two keys [deriveEncAndMac] returns: [exportRawKey] throws
    [InvalidAccessError] on each. *)
Theorem deriveEncAndMac_not_exportable
    (password : string) (salt : bytes) (iterations : option N)
    (keys : EncAndMac) :
  deriveEncAndMac password salt iterations = Fulfilled keys ->
  exportRawKey (aesKey keys) = Thrown (Exception InvalidAccessError)
  /\ exportRawKey (macKey keys) = Thrown (Exception InvalidAccessError).
Proof.
  intros H. apply deriveEncAndMac_attributes in H.
  destruct H as [[Ha [_ Hea]] [Hm [_ Hem]]].
  unfold exportRawKey, subtle_exportKey.
  now rewrite Ha, Hea, Hm, Hem.
Qed.

(** A file key survives the way through [exportRawKey] and
    [importRawAesKey]: the exported bytes are the 32 random bytes of the
    key, and the imported key encrypts and decrypts as the generated one
    does; the imported key itself cannot be exported again. *)
Theorem file_key_round_trip (rs : random_source) :
  exists key raw key',
    genFileKey rs = (Fulfilled key, advance 32 rs)
    /\ exportRawKey key = Returned raw
    /\ raw = draw 32 rs
    /\ importRawAesKey raw = Fulfilled key'
    /\ (forall data rs2,
          aesGcmEncryptBytes data key' rs2 = aesGcmEncryptBytes data key rs2)
    /\ (forall iv ct,
          aesGcmDecryptBytes iv ct key' = aesGcmDecryptBytes iv ct key)
    /\ exportRawKey key' = Thrown (Exception InvalidAccessError).
Proof.
  exists {| key_kind := type_secret; key_algorithm := AES_GCM;
            key_extractable := true;
            key_usages := [usage_encrypt; usage_decrypt];
            key_data := draw 32 rs |},
         (draw 32 rs),
         {| key_kind := type_secret; key_algorithm := AES_GCM;
            key_extractable := false;
            key_usages := [usage_encrypt; usage_decrypt];
            key_data := draw 32 rs |}.
  split; [reflexivity|]. split; [reflexivity|].
  split; [reflexivity|]. split.
  - unfold importRawAesKey, subtle_importKey_raw_AES_GCM.
    rewrite (draw_length 32 rs). reflexivity.
  - repeat split.
Qed.

(** [importRawAesKey] takes 16, 24 or 32 bytes and nothing else. *)
Theorem importRawAesKey_length (raw : bytes) :
  (In (List.length raw) [16; 24; 32]%nat ->
   importRawAesKey raw
   = Fulfilled {| key_kind := type_secret; key_algorithm := AES_GCM;
                  key_extractable := false;
                  key_usages := [usage_encrypt; usage_decrypt];
                  key_data := raw |})
  /\ (~ In (List.length raw) [16; 24; 32]%nat ->
      importRawAesKey raw = Rejected DataError).
Proof.
  unfold importRawAesKey, subtle_importKey_raw_AES_GCM.
  cbn [usages_within forallb existsb usage_eqb orb andb negb is_empty].
  split.
  - intros [H|[H|[H|[]]]]; rewrite <- H; reflexivity.
  - intros H.
    destruct (List.length raw =? 16)%nat eqn:E1;
      [apply Nat.eqb_eq in E1; exfalso; apply H; left; now symmetry|].
    destruct (List.length raw =? 24)%nat eqn:E2;
      [apply Nat.eqb_eq in E2; exfalso; apply H; right; left;
       now symmetry|].
    destruct (List.length raw =? 32)%nat eqn:E3;
      [apply Nat.eqb_eq in E3; exfalso; apply H; right; right; left;
       now symmetry|].
    reflexivity.
Qed.

(** The integrity key of [deriveEncAndMac] signs and verifies: the tag
    [hmac] returns is accepted by [hmacVerify] over the same bytes, and
    every other tag is refused. *)
Theorem hmacVerify_hmac
    (password : string) (salt : bytes) (iterations : option N)
    (keys : EncAndMac) (data : bytes) :
  deriveEncAndMac password salt iterations = Fulfilled keys ->
  exists tag,
    hmac (macKey keys) data = Fulfilled tag
    /\ hmacVerify (macKey keys) data tag = Fulfilled true
    /\ (forall sig, sig <> tag ->
          hmacVerify (macKey keys) data sig = Fulfilled false).
Proof.
  intros H. apply deriveEncAndMac_attributes in H.
  destruct H as [_ [Hm [Hu _]]].
  exists (HMAC_SHA256 (key_data (macKey keys)) data).
  unfold hmac, hmacVerify, subtle_sign_HMAC, subtle_verify_HMAC, has_usage.
  rewrite Hm, Hu. cbn. repeat split.
  - f_equal. now apply bytes_eqb_eq.
  - intros sig Hs. f_equal. apply bytes_eqb_neq. congruence.
Qed.

(** Each of the two keys of [deriveEncAndMac] serves one purpose: the
    encryption key is refused by [hmac] and [hmacVerify], the integrity key
    by [aesGcmEncryptBytes] and [aesGcmDecryptBytes]. *)
Theorem deriveEncAndMac_roles
    (password : string) (salt : bytes) (iterations : option N)
    (keys : EncAndMac) :
  deriveEncAndMac password salt iterations = Fulfilled keys ->
  (forall data, hmac (aesKey keys) data = Rejected InvalidAccessError)
  /\ (forall data sig,
        hmacVerify (aesKey keys) data sig = Rejected InvalidAccessError)
  /\ (forall data rs,
        fst (aesGcmEncryptBytes data (macKey keys) rs)
        = Rejected InvalidAccessError)
  /\ (forall iv ct,
        aesGcmDecryptBytes iv ct (macKey keys)
        = Rejected InvalidAccessError).
Proof.
  intros H. apply deriveEncAndMac_attributes in H.
  destruct H as [[Ha _] [Hm _]].
  unfold hmac, hmacVerify, subtle_sign_HMAC, subtle_verify_HMAC,
    aesGcmEncryptBytes, aesGcmDecryptBytes, subtle_encrypt_AES_GCM,
    subtle_decrypt_AES_GCM.
  rewrite Ha, Hm. repeat split.
Qed.

Lemma genEcdsaKeyPair_attributes
    (rs rs' : random_source) (pair : CryptoKeyPair) :
  genEcdsaKeyPair rs = (Fulfilled pair, rs') ->
  publicKey pair
  = {| key_kind := type_public; key_algorithm := ECDSA;
       key_extractable := true; key_usages := [usage_verify];
       key_data := key_data (publicKey pair) |}
  /\ privateKey pair
     = {| key_kind := type_private; key_algorithm := ECDSA;
          key_extractable := true; key_usages := [usage_sign];
          key_data := key_data (privateKey pair) |}.
Proof.
  unfold genEcdsaKeyPair, subtle_generateKey_ECDSA. cbn.
  destruct (ECDSA_P256_generate rs) as [[private public] rs1].
  intros [= <- _]. split; reflexivity.
Qed.

(** Of a generated pair the private key only signs and the public key only
    verifies, and neither is exported in the format of the other. *)
Theorem genEcdsaKeyPair_roles
    (rs rs' : random_source) (pair : CryptoKeyPair) :
  genEcdsaKeyPair rs = (Fulfilled pair, rs') ->
  (forall data sig,
     ecdsaVerify (privateKey pair) data sig = Rejected InvalidAccessError)
  /\ (forall data rs2,
        ecdsaSign (publicKey pair) data rs2
        = (Rejected InvalidAccessError, rs2))
  /\ exportSpki (privateKey pair) = Thrown (Exception InvalidAccessError)
  /\ exportPkcs8 (publicKey pair) = Thrown (Exception InvalidAccessError)
  /\ exportRawKey (privateKey pair) = Thrown (Exception InvalidAccessError).
Proof.
  intros H. apply genEcdsaKeyPair_attributes in H. destruct H as [Hp Hs].
  rewrite Hp, Hs. repeat split.
Qed.

(** A signature [ecdsaSign] makes with the private key of a generated pair
    is accepted by [ecdsaVerify] with the public key over the same bytes,
    when the primitive accepts the signature it made. *)
Theorem ecdsaVerify_ecdsaSign
    (rs0 rs1 rs : random_source) (pair : CryptoKeyPair) (data : bytes) :
  genEcdsaKeyPair rs0 = (Fulfilled pair, rs1) ->
  ECDSA_P256_SHA256_verify (key_data (publicKey pair))
    (fst (ECDSA_P256_SHA256_sign (key_data (privateKey pair)) data rs))
    data = true ->
  exists sig rs',
    ecdsaSign (privateKey pair) data rs = (Fulfilled sig, rs')
    /\ ecdsaVerify (publicKey pair) data sig = Fulfilled true.
Proof.
  intros H Hv. apply genEcdsaKeyPair_attributes in H. destruct H as [Hp Hs].
  unfold ecdsaSign, subtle_sign_ECDSA, ecdsaVerify, subtle_verify_ECDSA.
  rewrite Hs. cbn.
  destruct (ECDSA_P256_SHA256_sign _ data rs) as [sig rs'] eqn:E.
  exists sig, rs'. split; [reflexivity|].
  rewrite Hp. cbn. cbn in Hv. now rewrite Hv.
Qed.

(** The keys of a generated pair come back unchanged from their
    interchange formats, when the encodings parse back to what was
    encoded: [importSpki(exportSpki(publicKey))] is the public key and
    [importPkcs8(exportPkcs8(privateKey))] the private key. *)
Theorem key_pair_interchange
    (rs rs' : random_source) (pair : CryptoKeyPair) :
  genEcdsaKeyPair rs = (Fulfilled pair, rs') ->
  SPKI_decode (SPKI_encode (key_data (publicKey pair)))
  = Some (key_data (publicKey pair)) ->
  PKCS8_decode (PKCS8_encode (key_data (privateKey pair)))
  = Some (key_data (privateKey pair)) ->
  exists spki pkcs8,
    exportSpki (publicKey pair) = Returned spki
    /\ importSpki spki = Fulfilled (publicKey pair)
    /\ exportPkcs8 (privateKey pair) = Returned pkcs8
    /\ importPkcs8 pkcs8 = Fulfilled (privateKey pair).
Proof.
  intros H Hspki Hpkcs8.
  apply genEcdsaKeyPair_attributes in H. destruct H as [Hp Hs].
  exists (SPKI_encode (key_data (publicKey pair))),
         (PKCS8_encode (key_data (privateKey pair))).
  unfold exportSpki, exportPkcs8, subtle_exportKey, importSpki, importPkcs8,
    subtle_importKey_spki_ECDSA, subtle_importKey_pkcs8_ECDSA.
  rewrite Hspki, Hpkcs8.
  destruct (publicKey pair) as [pk pa pe pu pd].
  destruct (privateKey pair) as [sk sa se su sd].
  cbn in Hp, Hs. injection Hp as -> -> -> ->. injection Hs as -> -> -> ->.
  cbn. repeat split.
Qed.

End KeyFacts.

(** The encryption key of the example scenario. *)
Lemma pbkdf2Key_not_exportable_witness :
  exportRawKey (K := checksum_keys) (aesKey example_keys)
  = Thrown (Exception InvalidAccessError).
Proof.
  apply (pbkdf2Key_not_exportable (P := checksum_platform)
           example_password example_salt None None (aesKey example_keys)).
  reflexivity.
Defined.

Lemma deriveEncAndMac_not_exportable_witness :
  exportRawKey (K := checksum_keys) (aesKey example_keys)
  = Thrown (Exception InvalidAccessError)
  /\ exportRawKey (K := checksum_keys) (macKey example_keys)
     = Thrown (Exception InvalidAccessError).
Proof.
  apply (deriveEncAndMac_not_exportable (P := checksum_platform)
           example_password example_salt None example_keys).
  reflexivity.
Defined.

Lemma hmacVerify_hmac_witness :
  exists tag,
    hmac (K := checksum_keys) (macKey example_keys) [x01; x02]
    = Fulfilled tag
    /\ hmacVerify (K := checksum_keys) (macKey example_keys) [x01; x02] tag
       = Fulfilled true
    /\ (forall sig, sig <> tag ->
          hmacVerify (K := checksum_keys) (macKey example_keys)
            [x01; x02] sig = Fulfilled false).
Proof.
  apply (hmacVerify_hmac (P := checksum_platform) (K := checksum_keys)
           example_password example_salt None example_keys [x01; x02]).
  reflexivity.
Defined.

Lemma deriveEncAndMac_roles_witness :
  (forall data,
     hmac (K := checksum_keys) (aesKey example_keys) data
     = Rejected InvalidAccessError)
  /\ (forall data sig,
        hmacVerify (K := checksum_keys) (aesKey example_keys) data sig
        = Rejected InvalidAccessError)
  /\ (forall data rs,
        fst (aesGcmEncryptBytes (P := checksum_platform) data
               (macKey example_keys) rs)
        = Rejected InvalidAccessError)
  /\ (forall iv ct,
        aesGcmDecryptBytes (P := checksum_platform) iv ct
          (macKey example_keys)
        = Rejected InvalidAccessError).
Proof.
  apply (deriveEncAndMac_roles (P := checksum_platform)
           (K := checksum_keys) example_password example_salt None
           example_keys).
  reflexivity.
Defined.

Lemma genEcdsaKeyPair_roles_witness :
  (forall data sig,
     ecdsaVerify (P := checksum_platform) (privateKey example_pair) data sig
     = Rejected InvalidAccessError)
  /\ (forall data rs2,
        ecdsaSign (K := checksum_keys) (publicKey example_pair) data rs2
        = (Rejected InvalidAccessError, rs2))
  /\ exportSpki (K := checksum_keys) (privateKey example_pair)
     = Thrown (Exception InvalidAccessError)
  /\ exportPkcs8 (K := checksum_keys) (publicKey example_pair)
     = Thrown (Exception InvalidAccessError)
  /\ exportRawKey (K := checksum_keys) (privateKey example_pair)
     = Thrown (Exception InvalidAccessError).
Proof.
  apply (genEcdsaKeyPair_roles (P := checksum_platform)
           (K := checksum_keys) counting_source
           (advance 4 counting_source) example_pair).
  reflexivity.
Defined.

Lemma ecdsaVerify_ecdsaSign_witness :
  exists sig rs',
    ecdsaSign (K := checksum_keys) (privateKey example_pair) [x01; x02]
      counting_source = (Fulfilled sig, rs')
    /\ ecdsaVerify (P := checksum_platform) (publicKey example_pair)
         [x01; x02] sig = Fulfilled true.
Proof.
  apply (ecdsaVerify_ecdsaSign (P := checksum_platform)
           (K := checksum_keys) counting_source
           (advance 4 counting_source) counting_source example_pair
           [x01; x02]).
  - reflexivity.
  - vm_compute. reflexivity.
Defined.

Lemma key_pair_interchange_witness :
  exists spki pkcs8,
    exportSpki (K := checksum_keys) (publicKey example_pair)
    = Returned spki
    /\ importSpki (K := checksum_keys) spki
       = Fulfilled (publicKey example_pair)
    /\ exportPkcs8 (K := checksum_keys) (privateKey example_pair)
       = Returned pkcs8
    /\ importPkcs8 (K := checksum_keys) pkcs8
       = Fulfilled (privateKey example_pair).
Proof.
  apply (key_pair_interchange (K := checksum_keys) counting_source
           (advance 4 counting_source) example_pair);
    reflexivity.
Defined.

(** Three bytes under the example key, with the IV of the counting
    source. *)
Lemma aesGcmDecryptBytes_aesGcmEncryptBytes_witness :
  exists v rs',
    aesGcmEncryptBytes (P := checksum_platform) [x01; x02; x03]
      example_key counting_source = (Fulfilled v, rs')
    /\ aesGcmDecryptBytes (P := checksum_platform) (iv v) (ciphertext v)
         example_key = Fulfilled [x01; x02; x03].
Proof.
  apply (aesGcmDecryptBytes_aesGcmEncryptBytes (P := checksum_platform)
           [x01; x02; x03] example_key counting_source).
  - reflexivity.
  - reflexivity.
  - reflexivity.
  - vm_compute. lia.
  - vm_compute. reflexivity.
Defined.

(** ** More on the handlers of pm-server/server.js *)

Section ServerMore.

Context {JN : JsNumber}.


















(** A request without a body, whatever the route: server.js throws a
    [TypeError], the copy answers 500, and neither writes. *)
Lemma without_body (route : route) (st : process) :
  handle (WithoutBody route) st = (Rejected TypeError, st)
  /\ copy_handle (WithoutBody route) st
     = (Fulfilled (error_response 500 "Server error"), st).
Proof. split; reflexivity. Qed.

End ServerMore.







(** A registration without a verifier on a fresh server. *)
Lemma register_missing_field_witness :
  post_register
    [("username", JStr "carol"); ("salt", JStr "cw==");
     ("vault", example_vault)]%string initDB
  = (Fulfilled (error_response 400 "Missing fields"), initDB).
Proof.
  apply (register_missing_field initDB _ "verifier").
  - reflexivity.
  - right. right. left. reflexivity.
  - reflexivity.
Defined.

(** Alice registers a second time. *)
Lemma register_existing_user_witness :
  post_register register_alice_body alice_registered
  = (Fulfilled (error_response 409 "User exists"), alice_registered).
Proof.
  apply (register_existing_user alice_registered
           register_alice_body (JStr "alice")
           (JStr "c2FsdHNhbHRzYWx0c2FsdA==") (JStr "dmVyaWZpZXI=")
           (JObj [("iv", JStr "BBBBBBBBBBBBBBBB");
                  ("ciphertext", JStr "AAEC")]%string)
           "alice"
           [("salt", JStr "c2FsdHNhbHRzYWx0c2FsdA==");
            ("verifier", JStr "dmVyaWZpZXI=");
            ("vault", JObj [("iv", JStr "BBBBBBBBBBBBBBBB");
                            ("ciphertext", JStr "AAEC")])]%string);
    reflexivity.
Defined.

(** Dave's registration with the salt [1e400] on a fresh server: the
    stored salt is [null]. *)
Lemma register_stores_only_complete_witness :
  exists u salt verifier vault key,
    get_own "username" register_dave_overflow = Some u
    /\ get_own "salt" register_dave_overflow = Some salt
    /\ get_own "verifier" register_dave_overflow = Some verifier
    /\ get_own "vault" register_dave_overflow = Some vault
    /\ to_string u = Fulfilled key
    /\ (forall record,
          get_own key (users_json (initDB (JN := extended_numbers)))
          <> Some (JObj record))
    /\ users_json (snd (post_register register_dave_overflow initDB))
       = set_own key
           (JObj [("salt", json_written salt);
                  ("verifier", json_written verifier);
                  ("vault", json_written vault)]%string)
           (users_json initDB)
    /\ file_as_written (snd (post_register register_dave_overflow initDB)).
Proof.
  apply (register_stores_only_complete initDB
           (snd (post_register register_dave_overflow initDB))
           register_dave_overflow); try reflexivity.
  intros k v H. discriminate H.
Defined.

(** What that registration leaves in [users.json]. *)
Example register_overflow_stores_null :
  users_json (snd (post_register register_dave_overflow initDB))
  = [("dave", JObj [("salt", JNull); ("verifier", JStr "dg==");
                    ("vault", JStr "AAEC")])]%string.
Proof. reflexivity. Qed.

(** ** The records of users.json *)

Section Records.

Context {JN : JsNumber}.

Lemma written_present (k : string) (x : variable) (o o' : object) :
  falsy x = false ->
  written k x o = Fulfilled o' ->
  exists v, o' = set_own k v o.
Proof.
  unfold written. intros Hx.
  destruct x as [v|[v|properties]|]; cbn in Hx |- *; try discriminate;
    intros [= <-]; now exists (json_written v).
Qed.

Lemma handle_records_are_complete (r : request) (st : process) :
  records_are_complete st -> records_are_complete (snd (handle r st)).
Proof.
  intros Hst.
  assert (Hset : forall key value,
             complete_record value ->
             records_are_complete
               (saveUsers (set_own key value (users_json st)) st)).
  { intros key value Hv k v. cbn [saveUsers users_json].
    destruct (String.eqb k key) eqn:E.
    - apply String.eqb_eq in E. subst k. rewrite get_own_set_own.
      now intros [= <-].
    - apply String.eqb_neq in E. rewrite get_own_set_own_other by exact E.
      apply Hst. }
  destruct r as [body|body|body|route]; cbn [handle]; [| | |exact Hst].
  - unfold post_register.
    destruct (_ || _)%bool eqn:Hf; [exact Hst|].
    apply orb_false_elim in Hf. destruct Hf as [Hf Hvault].
    apply orb_false_elim in Hf. destruct Hf as [Hf Hverifier].
    apply orb_false_elim in Hf. destruct Hf as [_ Hsalt].
    destruct (property_key _); [|exact Hst].
    destruct (property_truthy _); [exact Hst|].
    destruct (written "salt" _ _) as [r1|] eqn:H1; [|exact Hst].
    cbn [bind].
    destruct (written "verifier" _ _) as [r2|] eqn:H2; [|exact Hst].
    cbn [bind].
    destruct (written "vault" _ _) as [r3|] eqn:H3; [|exact Hst].
    cbn [snd]. apply Hset.
    destruct (written_present _ _ _ _ Hsalt H1) as [s ->].
    destruct (written_present _ _ _ _ Hverifier H2) as [v ->].
    destruct (written_present _ _ _ _ Hvault H3) as [w ->].
    exists (set_own "vault" w (set_own "verifier" v (set_own "salt" s []))),
           s, v, w.
    repeat split.
  - unfold post_login.
    destruct (falsy _); [exact Hst|].
    destruct (property_key _); [|exact Hst].
    destruct (negb _); exact Hst.
  - unfold post_updateVault.
    destruct (_ || _)%bool eqn:Hf; [exact Hst|].
    apply orb_false_elim in Hf. destruct Hf as [_ Hvault].
    destruct (property_key _) as [key|]; [|exact Hst].
    destruct (negb _); [exact Hst|].
    unfold get_property, loadUsers.
    destruct (get_own key (users_json st)) as [value|] eqn:Hrec.
    + destruct (Hst key value Hrec)
        as [properties [s [v [w [-> [Hs [Hv _]]]]]]].
      cbn [assign_vault].
      destruct (written _ _ _) as [properties'|] eqn:Hw; cbn [bind];
        [|exact Hst].
      cbn [snd]. apply Hset.
      destruct (written_present _ _ _ _ Hvault Hw) as [w' ->].
      exists (set_own "vault" w' properties), s, v, w'.
      split; [reflexivity|].
      rewrite !get_own_set_own_other by discriminate.
      rewrite get_own_set_own. repeat split; assumption.
    + destruct (String.eqb key "__proto__"); [exact Hst|].
      destruct (existsb _ _); [exact Hst|].
      destruct (String.eqb key "vault"); [|exact Hst].
      destruct (prototype_vault st); [|exact Hst].
      destruct (assign_shared_vault _ _); exact Hst.
Qed.

Lemma serve_records_are_complete (rs : list request) (st : process) :
  records_are_complete st /\ file_as_written st ->
  records_are_complete (serve rs st) /\ file_as_written (serve rs st).
Proof.
  revert st. induction rs as [|r rs IH]; intros st [Hc Hw]; cbn [serve].
  - now split.
  - apply IH. split.
    + now apply handle_records_are_complete.
    + now apply handle_file_as_written.
Qed.

(** On a server started on an empty disk, whatever requests it has
    answered, every value of [users.json] is an object with a salt, a
    verifier and a vault, and holds no number that is not finite: it is
    read and written again as it is. *)
Theorem registered_records_are_complete
    (rs : list request) (k : string) (v : json) :
  get_own k (users_json (serve rs initDB)) = Some v ->
  complete_record v /\ json_written v = v.
Proof.
  intros H.
  destruct (serve_records_are_complete rs initDB) as [Hc Hw].
  - split; intros k' v' H'; discriminate H'.
  - split; [exact (Hc k v H)|exact (Hw k v H)].
Qed.

End Records.

(** The record of bob, registered without a vault of his own. *)
Lemma registered_records_are_complete_witness :
  complete_record
    (JObj [("salt", JStr "c2FsdHNhbHRzYWx0c2FsdA==");
           ("verifier", JStr "dmVyaWZpZXI=");
           ("vault", example_vault)]%string)
  /\ json_written
       (JObj [("salt", JStr "c2FsdHNhbHRzYWx0c2FsdA==");
              ("verifier", JStr "dmVyaWZpZXI=");
              ("vault", example_vault)]%string)
     = JObj [("salt", JStr "c2FsdHNhbHRzYWx0c2FsdA==");
             ("verifier", JStr "dmVyaWZpZXI=");
             ("vault", example_vault)]%string.
Proof.
  apply (registered_records_are_complete
           [update_proto; register_bob_without_vault] "bob").
  reflexivity.
Defined.
